(** * GameCharacter: validated attributes, identities and instance accounting

    A shallow embedding of [src/main.cpp]: the class [GameCharacter] with its
    three validators, its two constructors, its destructor, the rename
    operation, the accessors and the two static counters.

    Conventions of the embedding.
    - [int] values are integers of [Z]; the places where the program does
      signed arithmetic ([uniqueId++], [++ObjectCount], [--ObjectCount]) have
      undefined behaviour outside the 32-bit range, which is an outcome of
      its own ([Undefined]) and never a wrap-around.
    - [std::string] is [string]: a finite sequence of 8-bit characters in
      which NUL is an ordinary character; reading position [length] yields
      NUL, as [operator[]] guarantees.
    - whether plain [char] is signed is left to the platform ([Platform]).
    - a member function is a function on a [Frame] (the object [this] points
      to, and the static members); a [throw] leaves the frame as it was at
      the point of the throw, so what was already written stays visible. *)

From Stdlib Require Import ZArith List String Ascii Bool Lia.
From Stdlib Require Import DecimalString DecimalZ DecimalPos.
Import ListNotations.

Local Open Scope string_scope.
Local Open Scope Z_scope.

(* ================================================================= *)
(** ** Language-level notions *)

Module Cxx.

(** What the C++ implementation leaves open and the program depends on. *)
Class Platform : Set := { char_is_signed : bool }.

Definition INT_MAX : Z := 2147483647.
Definition INT_MIN : Z := -2147483648.

(** The value of a [char] in comparisons (after integral promotion). *)
Definition char_value {PF : Platform} (c : ascii) : Z :=
  let n := Z.of_N (N_of_ascii c) in
  if char_is_signed && (128 <=? n) then n - 256 else n.

Definition NUL : ascii := Ascii.zero.

(** [s[i]]: for [i = s.length()] a reference to NUL. The program never
    indexes further than that. *)
Definition str_at (s : string) (i : nat) : ascii :=
  match String.get i s with
  | Some c => c
  | None => NUL
  end.

(** [std::to_string(int)], and [operator<<] of an [int] on a stream with
    default flags: decimal digits, a leading minus sign for negatives. *)
Definition to_string (z : Z) : string :=
  NilZero.string_of_int (Z.to_int z).

(** The reading of a decimal numeral, used to say what [to_string] means. *)
Definition decimal_value (s : string) : option Z :=
  option_map Z.of_int (NilZero.int_of_string s).

(** [std::invalid_argument], the only exception type thrown. *)
Inductive exception : Set :=
| invalid_argument (what : string).

(** A function that either returns or throws, and touches no state. *)
Definition Verdict : Set := (exception + unit)%type.
Definition ok : Verdict := inr tt.
Definition throw (e : exception) : Verdict := inl e.

(** The outcome of running a statement on a state of type [St]. *)
Inductive Outcome (St A : Type) : Type :=
| Returns (a : A) (s : St)
| Throws (e : exception) (s : St)
| Undefined.
Arguments Returns {St A} a s.
Arguments Throws {St A} e s.
Arguments Undefined {St A}.

Definition Stmt (St A : Type) : Type := St -> Outcome St A.

Definition ret {St A} (a : A) : Stmt St A := fun s => Returns a s.

Definition bind {St A B} (m : Stmt St A) (k : A -> Stmt St B) : Stmt St B :=
  fun s =>
    match m s with
    | Returns a s' => k a s'
    | Throws e s' => Throws e s'
    | Undefined => Undefined
    end.

(** A validator called as a statement: it throws or falls through. *)
Definition check {St} (c : Verdict) : Stmt St unit :=
  fun s =>
    match c with
    | inl e => Throws e s
    | inr _ => Returns tt s
    end.

Definition modify {St} (f : St -> St) : Stmt St unit :=
  fun s => Returns tt (f s).

(** Signed [int] arithmetic: a result outside the range is undefined. *)
Definition int_result {St} (z : Z) : Stmt St Z :=
  fun s =>
    if (INT_MIN <=? z) && (z <=? INT_MAX) then Returns z s else Undefined.

End Cxx.

Import Cxx.

Declare Scope stmt_scope.
Delimit Scope stmt_scope with stmt.
Notation "x <- m ;; k" := (bind m (fun x => k))
  (at level 61, m at next level, right associativity) : stmt_scope.
Notation "m ;; k" := (bind m (fun _ => k))
  (at level 61, right associativity) : stmt_scope.

(* ================================================================= *)
(** ** The class *)

Definition MAX_NAME : Z := 32.
Definition MAX_HEALTH : Z := 1000.
Definition MAX_POWER : Z := 500.

(** The non-static data members. *)
Record GameCharacter : Set := mkGameCharacter {
  name : string;
  health : Z;
  attackPower : Z;
  id : Z
}.

(** The static data members. *)
Record Statics : Set := mkStatics {
  uniqueId : Z;
  ObjectCount : Z
}.

(** [int GameCharacter::uniqueId = 0; int GameCharacter::ObjectCount = 0;] *)
Definition initial_statics : Statics :=
  {| uniqueId := 0; ObjectCount := 0 |}.

(** What a non-static member function runs on. *)
Record Frame : Set := mkFrame {
  this : GameCharacter;
  statics : Statics
}.

Definition Method (A : Type) : Type := Stmt Frame A.

(** *** The exceptions, under the names the specification gives them *)

Definition EmptyName : exception :=
  invalid_argument "Character name cannot be empty.".
Definition NameMustStartUppercase : exception :=
  invalid_argument "Name must start with an uppercase letter.".
Definition NameTooLong : exception :=
  invalid_argument
    ("Name length cannot exceed " ++ to_string MAX_NAME ++ " characters.").
Definition NameTrailingSpace : exception :=
  invalid_argument "Invalid character name. Last character cannot be space.".
Definition NameDoubleSpace : exception :=
  invalid_argument
    "Invalid character name. It should not contain spaces following another space.".
Definition NameInvalidCharacter : exception :=
  invalid_argument "Name must contain only alphabetic characters and spaces.".

(** The specification's [HealthOutOfRange] covers two throw sites. *)
Definition HealthNotPositive : exception :=
  invalid_argument "Health must be positive or -1 for invincible character.".
Definition HealthTooHigh : exception :=
  invalid_argument ("Health cannot exceed " ++ to_string MAX_HEALTH ++ ".").
Definition AttackPowerTooHigh : exception :=
  invalid_argument ("Attack power cannot exceed " ++ to_string MAX_POWER ++ ".").

Definition HealthOutOfRange (e : exception) : Prop :=
  e = HealthNotPositive \/ e = HealthTooHigh.

(** *** Validators *)

(** [validateHealth], lines 186-193. *)
Definition validateHealth (characterHealth : Z) : Verdict :=
  if (characterHealth <=? 0) && negb (characterHealth =? -1) then
    throw HealthNotPositive
  else if characterHealth >? MAX_HEALTH then
    throw HealthTooHigh
  else ok.

(** [validateAttackPower], lines 204-208. *)
Definition validateAttackPower (characterAttackPower : Z) : Verdict :=
  if characterAttackPower >? MAX_POWER then throw AttackPowerTooHigh
  else ok.

Section Validation.
Context {PF : Platform}.

(** [c < lo || c > hi] on two characters and a character literal range. *)
Definition outside (lo hi c : ascii) : bool :=
  (char_value c <? char_value lo) || (char_value c >? char_value hi).

(** The body of the [for] loop of [validateName], lines 230-244, run for
    the [todo] indices [i], [i+1], ... that are left below
    [characterName.length()]; [space] is the loop's flag. *)
Fixpoint validateName_loop (characterName : string) (todo i : nat)
    (space : bool) : Verdict :=
  match todo with
  | O => ok
  | S todo' =>
      let c := str_at characterName i in
      if (c =? " ")%char && (str_at characterName (i + 1) =? NUL)%char then
        throw NameTrailingSpace
      else if outside "A" "Z" c && outside "a" "z" c then
        if (c =? " ")%char && negb space then
          validateName_loop characterName todo' (i + 1) true
        else if space then
          throw NameDoubleSpace
        else
          throw NameInvalidCharacter
      else
        validateName_loop characterName todo' (i + 1) false
  end.

(** [validateName], lines 219-245. *)
Definition validateName (characterName : string) : Verdict :=
  if (characterName =? "")%string then
    throw EmptyName
  else if outside "A" "Z" (str_at characterName 0) then
    throw NameMustStartUppercase
  else if Z.of_nat (String.length characterName) >? MAX_NAME then
    throw NameTooLong
  else
    validateName_loop characterName (String.length characterName) 0 false.

End Validation.

(** *** Assignments to the members *)

Definition assign_name (v : string) (fr : Frame) : Frame :=
  {| this := {| name := v; health := health (this fr);
                attackPower := attackPower (this fr); id := id (this fr) |};
     statics := statics fr |}.

Definition assign_health (v : Z) (fr : Frame) : Frame :=
  {| this := {| name := name (this fr); health := v;
                attackPower := attackPower (this fr); id := id (this fr) |};
     statics := statics fr |}.

Definition assign_attackPower (v : Z) (fr : Frame) : Frame :=
  {| this := {| name := name (this fr); health := health (this fr);
                attackPower := v; id := id (this fr) |};
     statics := statics fr |}.

Definition assign_id (v : Z) (fr : Frame) : Frame :=
  {| this := {| name := name (this fr); health := health (this fr);
                attackPower := attackPower (this fr); id := v |};
     statics := statics fr |}.

Definition assign_uniqueId (v : Z) (fr : Frame) : Frame :=
  {| this := this fr;
     statics := {| uniqueId := v; ObjectCount := ObjectCount (statics fr) |} |}.

Definition assign_ObjectCount (v : Z) (fr : Frame) : Frame :=
  {| this := this fr;
     statics := {| uniqueId := uniqueId (statics fr); ObjectCount := v |} |}.

(** [uniqueId++]: the value before, and the counter one higher. *)
Definition uniqueId_post_increment : Method Z :=
  fun fr =>
    let old := uniqueId (statics fr) in
    (v <- int_result (old + 1) ;; modify (assign_uniqueId v) ;; ret old)%stmt fr.

(** [++ObjectCount] and [--ObjectCount]. *)
Definition ObjectCount_pre_increment : Method unit :=
  fun fr =>
    (v <- int_result (ObjectCount (statics fr) + 1) ;;
     modify (assign_ObjectCount v))%stmt fr.

Definition ObjectCount_pre_decrement : Method unit :=
  fun fr =>
    (v <- int_result (ObjectCount (statics fr) - 1) ;;
     modify (assign_ObjectCount v))%stmt fr.

(** *** Member functions *)

Section Members.
Context {PF : Platform}.

(** [setName], lines 71-74. *)
Definition setName (characterName : string) : Method unit :=
  (check (validateName characterName) ;;
   modify (assign_name characterName))%stmt.

(** [setHealth], lines 161-164. *)
Definition setHealth (characterHealth : Z) : Method unit :=
  (check (validateHealth characterHealth) ;;
   modify (assign_health characterHealth))%stmt.

(** [setAttackPower], lines 172-175. *)
Definition setAttackPower (characterAttackPower : Z) : Method unit :=
  (check (validateAttackPower characterAttackPower) ;;
   modify (assign_attackPower characterAttackPower))%stmt.

(** [init], lines 145-151. *)
Definition init (name : string) (health attackPower : Z) : Method unit :=
  (setName name ;;
   setHealth health ;;
   setAttackPower attackPower ;;
   old <- uniqueId_post_increment ;; modify (assign_id old) ;;
   ObjectCount_pre_increment)%stmt.

(** The destructor, lines 58-60. *)
Definition dtor_GameCharacter : Method unit := ObjectCount_pre_decrement.

(** *** Creating and deleting objects

    The storage of a new object as a constructor body finds it: the
    [string] member default-constructed, the [int] members not initialised,
    so holding whatever the storage [mem] held. *)
Definition fresh (mem : GameCharacter) : GameCharacter :=
  {| name := ""; health := health mem;
     attackPower := attackPower mem; id := id mem |}.

(** [new GameCharacter(...)] with a constructor whose body is [body]. When
    the body throws, the members are destroyed and the storage is released;
    the destructor of the class is not run, and no object comes back. *)
Definition construct (body : Method unit) (mem : GameCharacter)
    : Stmt Statics GameCharacter :=
  fun st =>
    match body {| this := fresh mem; statics := st |} with
    | Returns _ fr => Returns (this fr) (statics fr)
    | Throws e fr => Throws e (statics fr)
    | Undefined => Undefined
    end.

(** [new GameCharacter()], lines 39-41. *)
Definition createDefault (mem : GameCharacter) : Stmt Statics GameCharacter :=
  construct (init "Name" (-1) 0) mem.

(** [new GameCharacter(name, health, attackPower)], lines 51-53. *)
Definition createWith (mem : GameCharacter) (name : string)
    (health attackPower : Z) : Stmt Statics GameCharacter :=
  construct (init name health attackPower) mem.

(** [delete p], for [p] pointing to the object [c]. *)
Definition dispose (c : GameCharacter) : Stmt Statics unit :=
  fun st =>
    match dtor_GameCharacter {| this := c; statics := st |} with
    | Returns _ fr => Returns tt (statics fr)
    | Throws e fr => Throws e (statics fr)
    | Undefined => Undefined
    end.

(** [for (...) delete npc[i];], lines 292-295, for any number of objects. *)
Fixpoint dispose_all (cs : list GameCharacter) : Stmt Statics unit :=
  match cs with
  | [] => ret tt
  | c :: cs' => (dispose c ;; dispose_all cs')%stmt
  end.

(** A construction a caller attempts, with the storage it is given. *)
Inductive Attempt : Set :=
| TryDefault (mem : GameCharacter)
| TryWith (mem : GameCharacter) (name : string) (health attackPower : Z).

Definition attempt (a : Attempt) : Stmt Statics GameCharacter :=
  match a with
  | TryDefault mem => createDefault mem
  | TryWith mem n h p => createWith mem n h p
  end.

(** A caller that makes the attempts one after the other, keeps the objects
    it got in the order it got them, and catches [invalid_argument] after
    each attempt that throws. *)
Fixpoint attempts (l : list Attempt) : Stmt Statics (list GameCharacter) :=
  match l with
  | [] => ret []
  | a :: l' =>
      fun st =>
        match attempt a st with
        | Returns c st' => (cs <- attempts l' ;; ret (c :: cs))%stmt st'
        | Throws _ st' => attempts l' st'
        | Undefined => Undefined
        end
  end.

End Members.

(** *** Accessors, lines 80-132 *)

Definition getName (c : GameCharacter) : string := name c.
Definition getHealth (c : GameCharacter) : Z := health c.
Definition getAttackPower (c : GameCharacter) : Z := attackPower c.
Definition getPersonalId (c : GameCharacter) : Z := id c.
Definition getObjectCount (st : Statics) : Z := ObjectCount st.
Definition getIdCount (st : Statics) : Z := uniqueId st.

(** A [stringstream] is the text written to it so far. *)
Definition stringstream : Set := string.
Definition put_string (ss : stringstream) (s : string) : stringstream := ss ++ s.
Definition put_int (ss : stringstream) (z : Z) : stringstream := ss ++ to_string z.

(** [toString], lines 112-116. *)
Definition toString (c : GameCharacter) : string :=
  let ss : stringstream := "" in
  let ss := put_string ss (name c) in
  let ss := put_string ss " " in
  let ss := put_int ss (health c) in
  let ss := put_string ss " " in
  let ss := put_int ss (attackPower c) in
  ss.

(** *** The program's own run, lines 253-297

    Calling a member function on an object the caller holds. *)
Definition invoke {A} (m : Method A) (c : GameCharacter)
    : Stmt Statics (A * GameCharacter) :=
  fun st =>
    match m {| this := c; statics := st |} with
    | Returns a fr => Returns (a, this fr) (statics fr)
    | Throws e fr => Throws e (statics fr)
    | Undefined => Undefined
    end.

Definition read_statics : Stmt Statics Statics := fun st => Returns st st.

Section Main.
Context {PF : Platform}.

(** The [try] block of [main]: what it does to the statics, and the value
    of each of its [assert]s, in the order of the text. *)
Definition main_try (m0 m1 m2 : GameCharacter) : Stmt Statics (list bool) :=
  (s0 <- read_statics ;;
   npc0 <- createWith m0 "Leonardo da Vinci" 1000 20 ;;
   s1 <- read_statics ;;
   npc1 <- createDefault m1 ;;
   s2 <- read_statics ;;
   renamed <- invoke (setName "B") npc1 ;;
   npc2 <- createWith m2 "Jack" 10 30 ;;
   s3 <- read_statics ;;
   dispose npc0 ;; dispose (snd renamed) ;; dispose npc2 ;;
   s4 <- read_statics ;;
   ret [ getObjectCount s0 =? 0;
         (toString npc0 =? "Leonardo da Vinci 1000 20")%string;
         getObjectCount s1 =? 1;
         getPersonalId npc0 =? 0;
         (getName npc0 =? "Leonardo da Vinci")%string;
         getHealth npc0 =? 1000;
         getAttackPower npc0 =? 20;
         (toString npc1 =? "Name -1 0")%string;
         getObjectCount s2 =? 2;
         getIdCount s2 =? 2;
         getPersonalId npc1 =? 1;
         (getName npc1 =? "Name")%string;
         getHealth npc1 =? -1;
         getAttackPower npc1 =? 0;
         (getName (snd renamed) =? "B")%string;
         getObjectCount s3 =? 3;
         getIdCount s3 =? 3;
         getPersonalId npc2 =? 2;
         (getName npc2 =? "Jack")%string;
         getHealth npc2 =? 10;
         getAttackPower npc2 =? 30;
         getObjectCount s4 =? 0;
         getIdCount s4 =? 3 ])%stmt.

End Main.

(* ================================================================= *)
(** ** The rules as the specification words them

    These definitions follow the text of the specification, not the code;
    the theorems below compare the validators with them. *)

Definition uppercase_letter (c : ascii) : Prop :=
  (N_of_ascii "A" <= N_of_ascii c <= N_of_ascii "Z")%N.

Definition lowercase_letter (c : ascii) : Prop :=
  (N_of_ascii "a" <= N_of_ascii c <= N_of_ascii "z")%N.

Definition letter (c : ascii) : Prop :=
  uppercase_letter c \/ lowercase_letter c.

Definition SPACE : ascii := " "%char.

(** Every character is a letter or a space. *)
Definition Alphabetic (n : string) : Prop :=
  forall i c, String.get i n = Some c -> letter c \/ c = SPACE.

(** No two spaces are consecutive. *)
Definition SingleSpaced (n : string) : Prop :=
  forall i, String.get i n = Some SPACE -> String.get (S i) n <> Some SPACE.

(** The last character is a space. *)
Definition EndsWithSpace (n : string) : Prop :=
  String.get (String.length n - 1) n = Some SPACE.

(** The name rule of the specification. *)
Definition NameGrammar (n : string) : Prop :=
  n <> "" /\
  (exists c, String.get 0 n = Some c /\ uppercase_letter c) /\
  Z.of_nat (String.length n) <= MAX_NAME /\
  Alphabetic n /\
  SingleSpaced n /\
  ~ EndsWithSpace n.

(** The health rule: the sentinel, or strictly positive up to the maximum. *)
Definition HealthRule (h : Z) : Prop := h = -1 \/ 0 < h <= MAX_HEALTH.

(** The attack power rule: an upper bound only. *)
Definition PowerRule (a : Z) : Prop := a <= MAX_POWER.

(** A triple [createWith] is specified to accept. *)
Definition ValidTriple (n : string) (h a : Z) : Prop :=
  NameGrammar n /\ HealthRule h /\ PowerRule a.

(* ================================================================= *)
(** ** The loop of [validateName], read off the rest of the name

    [scan space r] is what the loop does from the position where [r], the
    rest of the name, starts. The character after the current one is the
    first of what follows, or NUL at the end. Used in proofs only. *)

Definition first_or_NUL (r : string) : ascii :=
  match r with
  | EmptyString => NUL
  | String c _ => c
  end.

Section Scan.
Context {PF : Platform}.

Fixpoint scan (space : bool) (r : string) : Verdict :=
  match r with
  | EmptyString => ok
  | String c r' =>
      if (c =? " ")%char && (first_or_NUL r' =? NUL)%char then
        throw NameTrailingSpace
      else if outside "A" "Z" c && outside "a" "z" c then
        if (c =? " ")%char && negb space then scan true r'
        else if space then throw NameDoubleSpace
        else throw NameInvalidCharacter
      else scan false r'
  end.

End Scan.

(** Letters and single spaces, with no space at the front when [space] says
    that a space came just before. *)
Fixpoint spaced_letters (space : bool) (p : string) : Prop :=
  match p with
  | EmptyString => True
  | String c p' =>
      (letter c /\ spaced_letters false p') \/
      (c = SPACE /\ space = false /\ spaced_letters true p')
  end.

(** The loop's flag after the characters of [p], entered with [space]. *)
Fixpoint flag_after (space : bool) (p : string) : bool :=
  match p with
  | EmptyString => space
  | String c p' => flag_after (c =? " ")%char p'
  end.

(* ================================================================= *)
(** ** Counters and callers *)

(** Both counters can take [n] more increments. *)
Definition room (n : Z) (st : Statics) : Prop :=
  (INT_MIN <= uniqueId st /\ uniqueId st + n <= INT_MAX) /\
  (INT_MIN <= ObjectCount st /\ ObjectCount st + n <= INT_MAX).

Definition passes (v : Verdict) : bool :=
  match v with
  | inl _ => false
  | inr _ => true
  end.

Section Callers.
Context {PF : Platform}.

(** The attempts that get past the three validators. *)
Definition accepted (a : Attempt) : bool :=
  match a with
  | TryDefault _ => true
  | TryWith _ n h p =>
      passes (validateName n) && passes (validateHealth h)
      && passes (validateAttackPower p)
  end.

Definition successes (l : list Attempt) : nat :=
  List.length (filter accepted l).

End Callers.

(** [k], [k+1], ..., [k+n-1]. *)
Definition consecutive (k : Z) (n : nat) : list Z :=
  map (fun i => k + Z.of_nat i) (seq 0 n).

(** The two choices an implementation has for plain [char]. *)
Definition signed_char : Platform := {| char_is_signed := true |}.
Definition unsigned_char : Platform := {| char_is_signed := false |}.

(** Storage that was in use before, for the examples. *)
Definition used_storage : GameCharacter :=
  {| name := "Zed"; health := 77; attackPower := -5; id := 123 |}.

(* ================================================================= *)
(** ** Notions for the further properties *)

(** An object all of whose validated fields satisfy their rules. *)
Definition WellFormed (c : GameCharacter) : Prop :=
  NameGrammar (name c) /\ HealthRule (health c) /\ PowerRule (attackPower c).

(** The exceptions of each validator. *)
Definition name_exception (e : exception) : Prop :=
  e = EmptyName \/ e = NameMustStartUppercase \/ e = NameTooLong \/
  e = NameTrailingSpace \/ e = NameDoubleSpace \/ e = NameInvalidCharacter.

Definition power_exception (e : exception) : Prop :=
  e = AttackPowerTooHigh.

(** A text without a space in it. *)
Definition space_free (s : string) : Prop :=
  forall i, String.get i s <> Some SPACE.

(** The first character of a non-empty name is an uppercase letter. *)
Definition StartsUppercase (n : string) : Prop :=
  exists c, String.get 0 n = Some c /\ uppercase_letter c.

(* ================================================================= *)
(** ** Characters *)

Section CharFacts.
Context {PF : Platform}.

Lemma N_of_ascii_lt_256 (c : ascii) : (N_of_ascii c < 256)%N.
Proof. apply N_ascii_bounded. Qed.

(** The two range tests of the code do not depend on the signedness of
    [char]: both ends of either range are below 128. *)
Lemma outside_upper (c : ascii) :
  outside "A" "Z" c = false <-> uppercase_letter c.
Proof.
  unfold outside, uppercase_letter, char_value.
  pose proof (N_of_ascii_lt_256 c) as Hc.
  change (N_of_ascii "A") with 65%N. change (N_of_ascii "Z") with 90%N.
  rewrite orb_false_iff, Z.ltb_ge, Z.gtb_ltb, Z.ltb_ge.
  destruct char_is_signed; cbn [andb];
    [ destruct (Z.leb_spec 128 (Z.of_N (N_of_ascii c))) | ];
    cbn [Z.of_N Z.leb Z.compare Pos.compare Pos.compare_cont]; lia.
Qed.

Lemma outside_lower (c : ascii) :
  outside "a" "z" c = false <-> lowercase_letter c.
Proof.
  unfold outside, lowercase_letter, char_value.
  pose proof (N_of_ascii_lt_256 c) as Hc.
  change (N_of_ascii "a") with 97%N. change (N_of_ascii "z") with 122%N.
  rewrite orb_false_iff, Z.ltb_ge, Z.gtb_ltb, Z.ltb_ge.
  destruct char_is_signed; cbn [andb];
    [ destruct (Z.leb_spec 128 (Z.of_N (N_of_ascii c))) | ];
    cbn [Z.of_N Z.leb Z.compare Pos.compare Pos.compare_cont]; lia.
Qed.

Lemma not_a_letter (c : ascii) :
  outside "A" "Z" c && outside "a" "z" c = false <-> letter c.
Proof.
  unfold letter. rewrite andb_false_iff, outside_upper, outside_lower.
  reflexivity.
Qed.

Lemma not_a_letter_true (c : ascii) :
  outside "A" "Z" c && outside "a" "z" c = true <-> ~ letter c.
Proof.
  rewrite <- not_a_letter. destruct (outside "A" "Z" c && outside "a" "z" c);
    split; intros; congruence.
Qed.

End CharFacts.

Lemma space_not_letter : ~ letter SPACE.
Proof.
  unfold letter, uppercase_letter, lowercase_letter, SPACE.
  cbn. lia.
Qed.

Lemma NUL_not_letter : ~ letter NUL.
Proof.
  unfold letter, uppercase_letter, lowercase_letter, NUL.
  cbn. lia.
Qed.

Lemma NUL_not_space : NUL <> SPACE.
Proof. discriminate. Qed.

(* ================================================================= *)
(** ** Positions in a name *)

Lemma get_app_right (p r : string) (k : nat) :
  String.get (String.length p + k) (p ++ r) = String.get k r.
Proof.
  induction p as [|c p IH]; cbn; [reflexivity | exact IH].
Qed.

Lemma str_at_app_right (p r : string) (k : nat) :
  str_at (p ++ r) (String.length p + k) = str_at r k.
Proof. unfold str_at. now rewrite get_app_right. Qed.

Lemma str_at_next (c : ascii) (r : string) :
  str_at (String c r) 1 = first_or_NUL r.
Proof. destruct r; reflexivity. Qed.

Lemma app_snoc (p : string) (c : ascii) (r : string) :
  (p ++ String c "") ++ r = p ++ String c r.
Proof. induction p as [|d p IH]; cbn; [reflexivity | now rewrite IH]. Qed.

Lemma length_snoc (p : string) (c : ascii) :
  String.length (p ++ String c "") = S (String.length p).
Proof. induction p as [|d p IH]; cbn; [reflexivity | now rewrite IH]. Qed.

Lemma append_empty_r (s : string) : s ++ "" = s.
Proof. induction s as [|c s IH]; cbn; [reflexivity | now rewrite IH]. Qed.

Lemma append_assoc (a b c : string) : (a ++ b) ++ c = a ++ (b ++ c).
Proof. induction a as [|x a IH]; cbn; [reflexivity | now rewrite IH]. Qed.

Lemma length_append (a b : string) :
  String.length (a ++ b) = (String.length a + String.length b)%nat.
Proof. induction a as [|x a IH]; cbn; [reflexivity | now rewrite IH]. Qed.

Lemma EndsWithSpace_cons (c : ascii) (r : string) :
  EndsWithSpace (String c r) <->
  (r = "" /\ c = SPACE) \/ (r <> "" /\ EndsWithSpace r).
Proof.
  unfold EndsWithSpace. destruct r as [|d r]; cbn.
  - split.
    + intros [= ->]. now left.
    + intros [[_ ->] | [E _]]; [reflexivity | now elim E].
  - rewrite Nat.sub_0_r. split.
    + intros E. right. split; [discriminate | exact E].
    + intros [[E _] | [_ E]]; [discriminate | exact E].
Qed.

Lemma Alphabetic_cons (c : ascii) (r : string) :
  Alphabetic (String c r) <-> (letter c \/ c = SPACE) /\ Alphabetic r.
Proof.
  unfold Alphabetic. split.
  - intros A. split.
    + apply (A O). reflexivity.
    + intros i d E. apply (A (S i)). exact E.
  - intros [A0 A] [|i] d E; cbn in E.
    + injection E as <-. exact A0.
    + now apply (A i).
Qed.

Lemma SingleSpaced_cons (c : ascii) (r : string) :
  SingleSpaced (String c r) <->
  (c = SPACE -> String.get 0 r <> Some SPACE) /\ SingleSpaced r.
Proof.
  unfold SingleSpaced. split.
  - intros A. split.
    + intros ->. apply (A O). reflexivity.
    + intros i E. apply (A (S i)). exact E.
  - intros [A0 A] [|i] E; cbn in E |- *.
    + injection E as E. now apply A0.
    + now apply A.
Qed.

(** [spaced_letters], position by position. *)
Lemma spaced_letters_positions (space : bool) (p : string) :
  spaced_letters space p <->
  Alphabetic p /\ SingleSpaced p /\
  (space = true -> String.get 0 p <> Some SPACE).
Proof.
  revert space. induction p as [|c p IH]; intros space.
  - cbn. split; [intros _ | easy].
    repeat split; unfold Alphabetic, SingleSpaced; cbn; discriminate.
  - cbn [spaced_letters].
    rewrite Alphabetic_cons, SingleSpaced_cons, (IH false), (IH true).
    pose proof space_not_letter as NL.
    destruct (ascii_dec c SPACE) as [-> | Hc].
    + split.
      * intros [[L _] | (_ & -> & A & S & F)]; [now elim NL |].
        repeat split; auto. discriminate.
      * intros ((_ & A) & (F & S) & G). right.
        repeat split; auto.
        destruct space; [exfalso; now apply G | reflexivity].
    + split.
      * intros [(L & A & S & _) | (E & _)]; [| now elim Hc].
        repeat split; auto; try (intros; congruence).
        cbn. intros _ [= E]. now elim Hc.
      * intros (([L | E] & A) & (_ & S) & _); [| now elim Hc].
        left. repeat split; auto. discriminate.
Qed.

(* ================================================================= *)
(** ** The loop of [validateName] *)

Section LoopFacts.
Context {PF : Platform}.

Lemma str_at_app_here (p : string) (c : ascii) (r : string) :
  str_at (p ++ String c r) (String.length p) = c.
Proof.
  rewrite <- (Nat.add_0_r (String.length p)), str_at_app_right. reflexivity.
Qed.

Lemma str_at_app_next (p : string) (c : ascii) (r : string) :
  str_at (p ++ String c r) (String.length p + 1) = first_or_NUL r.
Proof. rewrite str_at_app_right. apply str_at_next. Qed.

(** The loop at index [length p] of [p ++ r], with [length r] indices to
    go, does what [scan] does on [r]. *)
Lemma validateName_loop_scan (r p : string) (space : bool) :
  validateName_loop (p ++ r) (String.length r) (String.length p) space
  = scan space r.
Proof.
  revert p space. induction r as [|c r IH]; intros p space.
  - reflexivity.
  - cbn [String.length validateName_loop scan].
    rewrite str_at_app_here, str_at_app_next.
    rewrite <- app_snoc, Nat.add_1_r, <- (length_snoc p c), !IH.
    reflexivity.
Qed.

Lemma validateName_loop_whole (s : string) :
  validateName_loop s (String.length s) 0 false = scan false s.
Proof. exact (validateName_loop_scan s "" false). Qed.

(** When the loop runs to the end. *)
Lemma scan_ok (space : bool) (r : string) :
  scan space r = ok <-> spaced_letters space r /\ ~ EndsWithSpace r.
Proof.
  revert space. induction r as [|c r IH]; intros space.
  - cbn. unfold EndsWithSpace. cbn.
    split; [intros _; split; [exact I | discriminate] | reflexivity].
  - cbn [scan spaced_letters]. rewrite EndsWithSpace_cons.
    destruct (Ascii.eqb_spec c " ") as [-> | Hc]; cbn [andb].
    + destruct (Ascii.eqb_spec (first_or_NUL r) NUL) as [E | E].
      * split; [discriminate |].
        intros [[[L _] | (_ & _ & SL)] NE]; [now elim space_not_letter |].
        destruct r as [|d r]; [exfalso; apply NE; now left |].
        cbn in E. subst d. cbn in SL.
        destruct SL as [[L _] | (F & _)];
          [now elim NUL_not_letter | now elim NUL_not_space].
      * assert (O : outside "A" "Z" " " && outside "a" "z" " " = true)
          by (apply not_a_letter_true, space_not_letter).
        rewrite O. destruct space; cbn [negb].
        -- split; [discriminate |].
           intros [[[L _] | (_ & F & _)] _];
             [now elim space_not_letter | discriminate].
        -- rewrite IH. split.
           ++ intros [SL NE]. split; [right; auto |].
              intros [[-> _] | [_ EN]]; [now elim E | auto].
           ++ intros [[[L _] | (_ & _ & SL)] NE];
                [now elim space_not_letter |].
              split; [exact SL |]. intros EN. apply NE. right.
              split; [| exact EN]. intros ->. now elim E.
    + destruct (outside "A" "Z" c && outside "a" "z" c) eqn:O.
      * apply not_a_letter_true in O. split.
        -- destruct space; discriminate.
        -- intros [[[L _] | (E & _)] _]; [now elim O | now elim Hc].
      * apply not_a_letter in O. rewrite IH. split.
        -- intros [SL NE]. split; [left; auto |].
           intros [[_ E] | [_ EN]]; [now elim Hc | auto].
        -- intros [[[_ SL] | (E & _)] NE]; [| now elim Hc].
           split; [exact SL |]. intros EN. apply NE. right.
           split; [| exact EN]. intros ->. discriminate EN.
Qed.

End LoopFacts.

(* ================================================================= *)
(** ** [validateName] against the name rule *)

Section NameFacts.
Context {PF : Platform}.

(** Past the three checks before the loop, the verdict is the loop's. *)
Lemma validateName_past_head (c : ascii) (r : string) :
  uppercase_letter c ->
  Z.of_nat (String.length (String c r)) <= MAX_NAME ->
  validateName (String c r) = scan false (String c r).
Proof.
  intros U L. unfold validateName.
  change (String c r =? "")%string with false.
  change (str_at (String c r) 0) with c.
  apply outside_upper in U. rewrite U.
  destruct (Z.gtb_spec (Z.of_nat (String.length (String c r))) MAX_NAME);
    [lia |].
  apply validateName_loop_whole.
Qed.

Lemma validateName_ok_iff (n : string) :
  validateName n = ok <-> NameGrammar n.
Proof.
  unfold NameGrammar. destruct n as [|c r].
  - cbn. split; [discriminate | intros [E _]; now elim E].
  - destruct (outside "A" "Z" c) eqn:U.
    + unfold validateName.
      change (String c r =? "")%string with false.
      change (str_at (String c r) 0) with c. rewrite U.
      split; [discriminate |].
      intros (_ & (d & [= <-] & Ud) & _).
      apply outside_upper in Ud. congruence.
    + apply outside_upper in U.
      destruct (Z.gtb_spec (Z.of_nat (String.length (String c r))) MAX_NAME)
        as [L | L].
      * unfold validateName.
        change (String c r =? "")%string with false.
        change (str_at (String c r) 0) with c.
        apply outside_upper in U. rewrite U.
        destruct (Z.gtb_spec (Z.of_nat (String.length (String c r))) MAX_NAME);
          [| lia].
        split; [discriminate | intros (_ & _ & L' & _); lia].
      * rewrite (validateName_past_head c r U L), scan_ok,
          spaced_letters_positions.
        split.
        -- intros ((A & S & _) & NE).
           repeat split; auto; [discriminate | now exists c].
        -- intros (_ & _ & _ & A & S & NE).
           repeat split; auto. discriminate.
Qed.

Lemma validateName_cases (n : string) :
  (validateName n = ok /\ NameGrammar n) \/
  (exists e, validateName n = throw e /\ ~ NameGrammar n).
Proof.
  destruct (validateName n) as [e | []] eqn:V.
  - right. exists e. split; [reflexivity |].
    rewrite <- validateName_ok_iff, V. discriminate.
  - left. split; [reflexivity |]. now apply validateName_ok_iff.
Qed.

(** Across a prefix of letters and single spaces the loop only moves its
    flag, provided that a space ending the prefix is not followed by NUL. *)
Lemma scan_app (space : bool) (p r : string) :
  spaced_letters space p ->
  (EndsWithSpace p -> first_or_NUL r <> NUL) ->
  scan space (p ++ r) = scan (flag_after space p) r.
Proof.
  revert space. induction p as [|c p IH]; intros space SL NN.
  - reflexivity.
  - cbn [append scan flag_after].
    assert (NN' : EndsWithSpace p -> first_or_NUL r <> NUL).
    { intros E. apply NN, EndsWithSpace_cons. right. split; [| exact E].
      intros ->. discriminate E. }
    destruct SL as [(L & SL) | (-> & -> & SL)].
    + assert (Hc : (c =? " ")%char = false).
      { apply Ascii.eqb_neq. intros ->. now apply space_not_letter. }
      rewrite Hc. cbn [andb].
      apply not_a_letter in L. rewrite L. now apply IH.
    + change (SPACE =? " ")%char with true. cbn [andb negb].
      assert (O : outside "A" "Z" SPACE && outside "a" "z" SPACE = true)
        by (apply not_a_letter_true, space_not_letter).
      rewrite O.
      assert (N0 : (first_or_NUL (p ++ r) =? NUL)%char = false).
      { apply Ascii.eqb_neq. destruct p as [|d p]; cbn.
        - apply NN. apply EndsWithSpace_cons. now left.
        - cbn in SL. destruct SL as [(L & _) | (_ & F & _)];
            [| discriminate].
          intros ->. now apply NUL_not_letter. }
      rewrite N0. now apply IH.
Qed.

(** A space followed by NUL, reached by the loop, is reported as a
    trailing space whatever follows the NUL. *)
Lemma scan_space_NUL (space : bool) (p r : string) :
  spaced_letters space p ->
  first_or_NUL r = NUL ->
  scan space (p ++ String SPACE r) = throw NameTrailingSpace.
Proof.
  intros SL E. rewrite scan_app; [| exact SL | discriminate].
  cbn [scan]. change (SPACE =? " ")%char with true. rewrite E.
  reflexivity.
Qed.

(** A character that is neither a letter nor a space, right after a single
    space, is reported as a double space. *)
Lemma scan_nonletter_after_space (p r : string) (c : ascii) :
  spaced_letters false p -> flag_after false p = false ->
  ~ letter c -> c <> SPACE -> c <> NUL ->
  scan false (p ++ String SPACE (String c r)) = throw NameDoubleSpace.
Proof.
  intros SL F NL NS NN. rewrite scan_app; [| exact SL | discriminate].
  rewrite F. cbn [scan first_or_NUL].
  change (SPACE =? " ")%char with true.
  apply Ascii.eqb_neq in NN. rewrite NN. cbn [andb negb].
  assert (O : outside "A" "Z" SPACE && outside "a" "z" SPACE = true)
    by (apply not_a_letter_true, space_not_letter).
  rewrite O.
  assert (Hc : (c =? " ")%char = false) by now apply Ascii.eqb_neq.
  rewrite Hc. cbn [andb].
  apply not_a_letter_true in NL. rewrite NL. reflexivity.
Qed.

End NameFacts.

(* ================================================================= *)
(** ** The two numeric validators *)

Lemma validateHealth_ok_iff (h : Z) : validateHealth h = ok <-> HealthRule h.
Proof.
  unfold validateHealth, HealthRule, MAX_HEALTH.
  destruct (Z.leb_spec h 0), (Z.eqb_spec h (-1)), (Z.gtb_spec h 1000);
    cbn [andb negb]; split; try discriminate; try reflexivity; lia.
Qed.

Lemma validateHealth_cases (h : Z) :
  (validateHealth h = ok /\ HealthRule h) \/
  (exists e, validateHealth h = throw e /\ ~ HealthRule h /\ HealthOutOfRange e).
Proof.
  unfold validateHealth, HealthRule, HealthOutOfRange, MAX_HEALTH.
  destruct (Z.leb_spec h 0), (Z.eqb_spec h (-1)), (Z.gtb_spec h 1000);
    cbn [andb negb];
    try (left; split; [reflexivity | lia]);
    right; eexists; (split; [reflexivity | split; [lia | auto]]).
Qed.

Lemma validateAttackPower_ok_iff (a : Z) :
  validateAttackPower a = ok <-> PowerRule a.
Proof.
  unfold validateAttackPower, PowerRule, MAX_POWER.
  destruct (Z.gtb_spec a 500); split; try discriminate; try reflexivity; lia.
Qed.

Lemma validateAttackPower_cases (a : Z) :
  (validateAttackPower a = ok /\ PowerRule a) \/
  (validateAttackPower a = throw AttackPowerTooHigh /\ ~ PowerRule a).
Proof.
  unfold validateAttackPower, PowerRule, MAX_POWER.
  destruct (Z.gtb_spec a 500); [right | left]; (split; [reflexivity | lia]).
Qed.

(* ================================================================= *)
(** ** Running the member functions *)

Lemma int_result_in_range {St} (z : Z) (s : St) :
  INT_MIN <= z <= INT_MAX -> int_result z s = Returns z s.
Proof.
  intros [L U]. unfold int_result.
  apply Z.leb_le in L. apply Z.leb_le in U. now rewrite L, U.
Qed.

Section RunFacts.
Context {PF : Platform}.

Lemma setName_ok (n : string) (fr : Frame) :
  validateName n = ok -> setName n fr = Returns tt (assign_name n fr).
Proof. intros V. unfold setName, bind, check. now rewrite V. Qed.

Lemma setName_throw (n : string) (e : exception) (fr : Frame) :
  validateName n = throw e -> setName n fr = Throws e fr.
Proof. intros V. unfold setName, bind, check. now rewrite V. Qed.

Lemma setHealth_ok (h : Z) (fr : Frame) :
  validateHealth h = ok -> setHealth h fr = Returns tt (assign_health h fr).
Proof. intros V. unfold setHealth, bind, check. now rewrite V. Qed.

Lemma setHealth_throw (h : Z) (e : exception) (fr : Frame) :
  validateHealth h = throw e -> setHealth h fr = Throws e fr.
Proof. intros V. unfold setHealth, bind, check. now rewrite V. Qed.

Lemma setAttackPower_ok (a : Z) (fr : Frame) :
  validateAttackPower a = ok ->
  setAttackPower a fr = Returns tt (assign_attackPower a fr).
Proof. intros V. unfold setAttackPower, bind, check. now rewrite V. Qed.

Lemma setAttackPower_throw (a : Z) (e : exception) (fr : Frame) :
  validateAttackPower a = throw e -> setAttackPower a fr = Throws e fr.
Proof. intros V. unfold setAttackPower, bind, check. now rewrite V. Qed.

(** [init] stops at the first validator that throws, after the assignments
    of the fields validated before it. *)
Lemma init_throw_name (n : string) (h a : Z) (e : exception) (fr : Frame) :
  validateName n = throw e -> init n h a fr = Throws e fr.
Proof.
  intros V. unfold init. unfold bind at 1. now rewrite (setName_throw n e fr V).
Qed.

Lemma init_throw_health (n : string) (h a : Z) (e : exception) (fr : Frame) :
  validateName n = ok -> validateHealth h = throw e ->
  init n h a fr = Throws e (assign_name n fr).
Proof.
  intros Vn Vh. unfold init. unfold bind at 1. rewrite (setName_ok n fr Vn).
  unfold bind at 1. now rewrite (setHealth_throw h e _ Vh).
Qed.

Lemma init_throw_power (n : string) (h a : Z) (e : exception) (fr : Frame) :
  validateName n = ok -> validateHealth h = ok ->
  validateAttackPower a = throw e ->
  init n h a fr = Throws e (assign_health h (assign_name n fr)).
Proof.
  intros Vn Vh Va. unfold init. unfold bind at 1. rewrite (setName_ok n fr Vn).
  unfold bind at 1. rewrite (setHealth_ok h _ Vh).
  unfold bind at 1. now rewrite (setAttackPower_throw a e _ Va).
Qed.

Lemma init_ok (n : string) (h a : Z) (fr : Frame) :
  validateName n = ok -> validateHealth h = ok -> validateAttackPower a = ok ->
  room 1 (statics fr) ->
  init n h a fr =
  Returns tt {| this := {| name := n; health := h; attackPower := a;
                           id := uniqueId (statics fr) |};
                statics := {| uniqueId := uniqueId (statics fr) + 1;
                              ObjectCount := ObjectCount (statics fr) + 1 |} |}.
Proof.
  intros Vn Vh Va [[U0 U1] [C0 C1]]. unfold init.
  unfold bind at 1. rewrite (setName_ok n fr Vn).
  unfold bind at 1. rewrite (setHealth_ok h _ Vh).
  unfold bind at 1. rewrite (setAttackPower_ok a _ Va).
  unfold bind at 1, uniqueId_post_increment. unfold bind at 1.
  rewrite int_result_in_range by (cbn; lia).
  cbn. unfold ObjectCount_pre_increment, bind. cbn.
  rewrite int_result_in_range by (cbn; lia).
  reflexivity.
Qed.

(** When [init] throws, the statics and the fields [attackPower] and [id]
    are as before, whatever else was written. *)
Lemma init_throws_frame (n : string) (h a : Z) (e : exception) (fr fr' : Frame) :
  init n h a fr = Throws e fr' ->
  statics fr' = statics fr /\
  id (this fr') = id (this fr) /\
  attackPower (this fr') = attackPower (this fr).
Proof.
  intros E.
  destruct (validateName n) as [en | []] eqn:Vn.
  { rewrite (init_throw_name n h a en fr Vn) in E. now injection E as _ <-. }
  destruct (validateHealth h) as [eh | []] eqn:Vh.
  { rewrite (init_throw_health n h a eh fr Vn Vh) in E. now injection E as _ <-. }
  destruct (validateAttackPower a) as [ea | []] eqn:Va.
  { rewrite (init_throw_power n h a ea fr Vn Vh Va) in E.
    now injection E as _ <-. }
  exfalso. revert E. unfold init.
  unfold bind at 1. rewrite (setName_ok n fr Vn).
  unfold bind at 1. rewrite (setHealth_ok h _ Vh).
  unfold bind at 1. rewrite (setAttackPower_ok a _ Va).
  unfold bind, uniqueId_post_increment, ObjectCount_pre_increment, bind,
    int_result, modify, ret.
  repeat match goal with
         | |- context [if ?b then _ else _] => destruct b
         end; discriminate.
Qed.

End RunFacts.

(* ================================================================= *)
(** ** Construction and disposal *)

Section LifeFacts.
Context {PF : Platform}.

Lemma createWith_ok (mem : GameCharacter) (n : string) (h a : Z) (st : Statics) :
  validateName n = ok -> validateHealth h = ok -> validateAttackPower a = ok ->
  room 1 st ->
  createWith mem n h a st =
  Returns {| name := n; health := h; attackPower := a; id := uniqueId st |}
          {| uniqueId := uniqueId st + 1; ObjectCount := ObjectCount st + 1 |}.
Proof.
  intros Vn Vh Va R. unfold createWith, construct.
  now rewrite (init_ok n h a {| this := fresh mem; statics := st |} Vn Vh Va R).
Qed.

Lemma createWith_throws_keeps_statics (mem : GameCharacter) (n : string)
    (h a : Z) (st st' : Statics) (e : exception) :
  createWith mem n h a st = Throws e st' -> st' = st.
Proof.
  unfold createWith, construct.
  destruct (init n h a _) as [u fr | e' fr |] eqn:I; try discriminate.
  intros [= _ <-]. now apply init_throws_frame in I.
Qed.

Lemma createWith_rejects (mem : GameCharacter) (n : string) (h a : Z)
    (st : Statics) :
  passes (validateName n) && passes (validateHealth h)
    && passes (validateAttackPower a) = false ->
  exists e, createWith mem n h a st = Throws e st.
Proof.
  intros P. unfold createWith, construct.
  destruct (validateName n) as [en | []] eqn:Vn.
  { exists en. now rewrite (init_throw_name n h a en _ Vn). }
  destruct (validateHealth h) as [eh | []] eqn:Vh.
  { exists eh. now rewrite (init_throw_health n h a eh _ Vn Vh). }
  destruct (validateAttackPower a) as [ea | []] eqn:Va.
  { exists ea. now rewrite (init_throw_power n h a ea _ Vn Vh Va). }
  discriminate P.
Qed.

Lemma default_name_ok : validateName "Name" = ok.
Proof.
  destruct PF as [[|]]; reflexivity.
Qed.

Lemma createDefault_ok (mem : GameCharacter) (st : Statics) :
  room 1 st ->
  createDefault mem st =
  Returns {| name := "Name"; health := -1; attackPower := 0; id := uniqueId st |}
          {| uniqueId := uniqueId st + 1; ObjectCount := ObjectCount st + 1 |}.
Proof.
  intros R. unfold createDefault, construct.
  now rewrite (init_ok "Name" (-1) 0 {| this := fresh mem; statics := st |}
                 default_name_ok eq_refl eq_refl R).
Qed.

Lemma passes_true (v : Verdict) : passes v = true <-> v = ok.
Proof. unfold ok. destruct v as [e | []]; cbn; split; congruence. Qed.

Lemma accepted_iff (mem : GameCharacter) (n : string) (h a : Z) :
  accepted (TryWith mem n h a) = true <-> ValidTriple n h a.
Proof.
  unfold ValidTriple. cbn [accepted].
  rewrite !andb_true_iff, !passes_true, validateName_ok_iff,
    validateHealth_ok_iff, validateAttackPower_ok_iff.
  tauto.
Qed.

Lemma attempt_accepted (a : Attempt) (st : Statics) :
  accepted a = true -> room 1 st ->
  exists c,
    attempt a st =
    Returns c {| uniqueId := uniqueId st + 1;
                 ObjectCount := ObjectCount st + 1 |} /\
    id c = uniqueId st.
Proof.
  intros A R. destruct a as [mem | mem n h p]; cbn [attempt].
  - rewrite (createDefault_ok mem st R). eexists. split; reflexivity.
  - cbn [accepted] in A. rewrite !andb_true_iff, !passes_true in A.
    destruct A as [[Vn Vh] Vp].
    rewrite (createWith_ok mem n h p st Vn Vh Vp R).
    eexists. split; reflexivity.
Qed.

Lemma attempt_rejected (a : Attempt) (st : Statics) :
  accepted a = false -> exists e, attempt a st = Throws e st.
Proof.
  destruct a as [mem | mem n h p]; cbn [attempt accepted].
  - discriminate.
  - apply createWith_rejects.
Qed.

Lemma dispose_ok (c : GameCharacter) (st : Statics) :
  INT_MIN < ObjectCount st <= INT_MAX ->
  dispose c st =
  Returns tt {| uniqueId := uniqueId st; ObjectCount := ObjectCount st - 1 |}.
Proof.
  intros R. unfold dispose, dtor_GameCharacter, ObjectCount_pre_decrement, bind.
  cbn [statics]. rewrite int_result_in_range by lia. reflexivity.
Qed.

Lemma dispose_all_ok (cs : list GameCharacter) (st : Statics) :
  INT_MIN + Z.of_nat (List.length cs) <= ObjectCount st <= INT_MAX ->
  dispose_all cs st =
  Returns tt {| uniqueId := uniqueId st;
                ObjectCount := ObjectCount st - Z.of_nat (List.length cs) |}.
Proof.
  revert st. induction cs as [|c cs IH]; intros st R.
  - cbn. unfold ret. destruct st; cbn. now rewrite Z.sub_0_r.
  - cbn [dispose_all List.length] in *. unfold bind.
    assert (R1 : INT_MIN < ObjectCount st <= INT_MAX) by lia.
    rewrite (dispose_ok c st R1).
    rewrite IH; cbn [ObjectCount uniqueId]; [do 2 f_equal; lia | lia].
Qed.

End LifeFacts.

Lemma consecutive_S (k : Z) (n : nat) :
  consecutive k (S n) = k :: consecutive (k + 1) n.
Proof.
  unfold consecutive. cbn [seq map]. rewrite Z.add_0_r. f_equal.
  rewrite <- seq_shift, map_map. apply map_ext. intros i. lia.
Qed.

(** [to_string] writes a numeral that reads back as the number. *)
Lemma decimal_value_to_string (z : Z) : decimal_value (to_string z) = Some z.
Proof.
  unfold decimal_value, to_string. rewrite NilZero.isi.
  - cbn. now rewrite DecimalZ.of_to.
  - destruct z; cbn; try discriminate.
    intros [= E]. now apply Unsigned.to_uint_nonnil in E.
  - destruct z; cbn; try discriminate.
    intros [= E]. now apply Unsigned.to_uint_nonnil in E.
Qed.

Lemma toString_eq (c : GameCharacter) :
  toString c =
  name c ++ " " ++ to_string (health c) ++ " " ++ to_string (attackPower c).
Proof.
  unfold toString, put_string, put_int. cbn [append].
  now rewrite !append_assoc.
Qed.

Section AttemptsFacts.
Context {PF : Platform}.

Lemma successes_cons (a : Attempt) (l : list Attempt) :
  successes (a :: l) = if accepted a then S (successes l) else successes l.
Proof. unfold successes. cbn [filter]. now destruct (accepted a). Qed.

Lemma room_S (n : nat) (st : Statics) :
  room (Z.of_nat (S n)) st ->
  room 1 st /\
  room (Z.of_nat n) {| uniqueId := uniqueId st + 1;
                       ObjectCount := ObjectCount st + 1 |}.
Proof. unfold room. cbn [uniqueId ObjectCount]. lia. Qed.

(** The run of a list of attempts: one object for each accepted attempt,
    with the values the counter took, and the counters moved by as much. *)
Lemma attempts_run (l : list Attempt) (st : Statics) :
  room (Z.of_nat (successes l)) st ->
  exists cs st',
    attempts l st = Returns cs st' /\
    List.length cs = successes l /\
    map id cs = consecutive (uniqueId st) (List.length cs) /\
    uniqueId st' = uniqueId st + Z.of_nat (List.length cs) /\
    ObjectCount st' = ObjectCount st + Z.of_nat (List.length cs).
Proof.
  revert st. induction l as [|a l IH]; intros st R.
  - exists [], st. cbn. unfold ret. repeat split; lia.
  - rewrite successes_cons in R |- *. cbn [attempts].
    destruct (accepted a) eqn:A.
    + apply room_S in R. destruct R as [R1 Rn].
      destruct (attempt_accepted a st A R1) as (c & -> & Ic).
      destruct (IH _ Rn) as (cs & st' & E & Len & Ids & U & O).
      cbn [uniqueId ObjectCount] in *.
      exists (c :: cs), st'. unfold bind, ret. rewrite E.
      cbn [List.length map]. rewrite consecutive_S, Ic, Ids.
      repeat split; auto; lia.
    + destruct (attempt_rejected a st A) as (e & ->).
      destruct (IH _ R) as (cs & st' & -> & Len & Ids & U & O).
      exists cs, st'. repeat split; auto.
Qed.

Lemma createWith_returns_name_ok (mem : GameCharacter) (n : string) (h a : Z)
    (st st' : Statics) (c : GameCharacter) :
  createWith mem n h a st = Returns c st' -> validateName n = ok.
Proof.
  unfold createWith, construct. destruct (validateName n) as [e | []] eqn:V.
  - now rewrite (init_throw_name n h a e _ V).
  - reflexivity.
Qed.

Lemma setName_returns_name_ok (n : string) (fr fr' : Frame) (u : unit) :
  setName n fr = Returns u fr' -> validateName n = ok /\ fr' = assign_name n fr.
Proof.
  destruct (validateName n) as [e | []] eqn:V.
  - now rewrite (setName_throw n e fr V).
  - rewrite (setName_ok n fr V). intros [= _ <-]. now split.
Qed.

End AttemptsFacts.

Lemma room_initial : room 1 initial_statics.
Proof. unfold room, initial_statics, INT_MIN, INT_MAX. cbn. lia. Qed.

(** After a start that passes the checks before the loop, and letters and
    single spaces that do not end with a space, a space followed by a
    character that is no letter, no space and not NUL makes [validateName]
    throw the double-space exception. *)
Lemma validateName_nonletter_after_space {PF : Platform}
    (c0 : ascii) (p r : string) (c : ascii) :
  uppercase_letter c0 ->
  spaced_letters false (String c0 p) ->
  flag_after false (String c0 p) = false ->
  ~ letter c -> c <> SPACE -> c <> NUL ->
  Z.of_nat (String.length (String c0 p ++ String SPACE (String c r)))
    <= MAX_NAME ->
  validateName (String c0 p ++ String SPACE (String c r))
  = throw NameDoubleSpace.
Proof.
  intros U SL F NL NS NN L.
  cbn [append] in L |- *. rewrite (validateName_past_head c0 _ U L).
  exact (scan_nonletter_after_space (String c0 p) r c SL F NL NS NN).
Qed.

(** The model runs the program's own scenario as the program's [assert]s
    say: all of them hold, three objects were created and none is left. *)
Lemma main_asserts_hold :
  main_try (PF := signed_char) used_storage used_storage used_storage
    initial_statics
  = Returns (repeat true 23) {| uniqueId := 3; ObjectCount := 0 |} /\
  main_try (PF := unsigned_char) used_storage used_storage used_storage
    initial_statics
  = Returns (repeat true 23) {| uniqueId := 3; ObjectCount := 0 |}.
Proof. split; vm_compute; reflexivity. Qed.

(* ================================================================= *)
(** ** The properties of the specification *)

(** C1. For every string [n], the name validation that construction and
    [setName] share accepts [n] exactly when [n] is non-empty, starts with
    an uppercase Latin letter, has at most 32 characters, consists of Latin
    letters and spaces only, has no two consecutive spaces and does not end
    with a space. [setName] returns on exactly these names, on any object;
    they are exactly the names with which some construction succeeds, and
    with which every construction with valid health and attack power
    succeeds while the counters can be incremented. *)
Theorem name_validation_accepts {PF : Platform} (n : string) :
  (validateName n = ok <-> NameGrammar n) /\
  (forall fr, (exists fr', setName n fr = Returns tt fr') <-> NameGrammar n) /\
  ((exists mem h a st c st', createWith mem n h a st = Returns c st')
   <-> NameGrammar n) /\
  (forall mem h a st,
      HealthRule h -> PowerRule a -> room 1 st ->
      ((exists c st', createWith mem n h a st = Returns c st')
       <-> NameGrammar n)).
Proof.
  split; [apply validateName_ok_iff |].
  split; [intros fr; split
         | split; [split | intros mem h a st Hh Ha R; split]].
  - intros [fr' E]. apply validateName_ok_iff.
    exact (proj1 (setName_returns_name_ok n fr fr' tt E)).
  - intros G. apply validateName_ok_iff in G.
    eexists. exact (setName_ok n fr G).
  - intros (mem & h & a & st & c & st' & E). apply validateName_ok_iff.
    exact (createWith_returns_name_ok mem n h a st st' c E).
  - intros G. apply validateName_ok_iff in G.
    exists used_storage, (-1), 0, initial_statics. do 2 eexists.
    exact (createWith_ok used_storage n (-1) 0 initial_statics G
             eq_refl eq_refl room_initial).
  - intros (c & st' & E). apply validateName_ok_iff.
    exact (createWith_returns_name_ok mem n h a st st' c E).
  - intros G. apply validateName_ok_iff in G.
    apply validateHealth_ok_iff in Hh. apply validateAttackPower_ok_iff in Ha.
    do 2 eexists. exact (createWith_ok mem n h a st G Hh Ha R).
Qed.

Lemma name_validation_accepts_witness :
  NameGrammar "Leonardo da Vinci" /\
  exists c st',
    createWith (PF := signed_char) used_storage "Leonardo da Vinci" 1000 20
      initial_statics = Returns c st'.
Proof.
  assert (G : NameGrammar "Leonardo da Vinci").
  { apply (proj1 (name_validation_accepts (PF := signed_char) _)).
    vm_compute. reflexivity. }
  split; [exact G |].
  apply (proj2 (proj2 (proj2
           (name_validation_accepts (PF := signed_char) "Leonardo da Vinci")))
           used_storage 1000 20 initial_statics).
  - unfold HealthRule, MAX_HEALTH. lia.
  - unfold PowerRule, MAX_POWER. lia.
  - unfold room, initial_statics, INT_MIN, INT_MAX. simpl. lia.
  - exact G.
Defined.

(** C7. For every integer [h], [validateHealth] accepts [h] exactly when
    [h = -1] or [0 < h <= 1000]; zero and the negatives other than -1 are
    rejected, and so is everything above 1000. *)
Theorem health_validation_accepts (h : Z) :
  (validateHealth h = ok <-> h = -1 \/ 0 < h <= 1000) /\
  (h <= 0 -> h <> -1 -> validateHealth h = throw HealthNotPositive) /\
  (1000 < h -> validateHealth h = throw HealthTooHigh).
Proof.
  split; [exact (validateHealth_ok_iff h) |].
  unfold validateHealth, MAX_HEALTH.
  destruct (Z.leb_spec h 0), (Z.eqb_spec h (-1)), (Z.gtb_spec h 1000);
    cbn [andb negb]; split; intros; try reflexivity; lia.
Qed.

Lemma health_validation_accepts_witness :
  validateHealth 0 = throw HealthNotPositive /\
  validateHealth (-2) = throw HealthNotPositive /\
  validateHealth 1001 = throw HealthTooHigh /\
  validateHealth (-1) = ok /\ validateHealth 1000 = ok.
Proof.
  refine (conj _ (conj _ (conj _ (conj _ _)))).
  - apply (proj1 (proj2 (health_validation_accepts 0))); lia.
  - apply (proj1 (proj2 (health_validation_accepts (-2)))); lia.
  - apply (proj2 (proj2 (health_validation_accepts 1001))); lia.
  - apply (proj1 (health_validation_accepts (-1))); lia.
  - apply (proj1 (health_validation_accepts 1000)); lia.
Defined.

(** C8. For every integer [a], [validateAttackPower] accepts [a] exactly
    when [a <= 500]; there is no lower bound, every negative attack power
    is accepted. *)
Theorem attack_power_validation_accepts (a : Z) :
  (validateAttackPower a = ok <-> a <= 500) /\
  (a < 0 -> validateAttackPower a = ok) /\
  (500 < a -> validateAttackPower a = throw AttackPowerTooHigh).
Proof.
  split; [exact (validateAttackPower_ok_iff a) |].
  unfold validateAttackPower, MAX_POWER.
  destruct (Z.gtb_spec a 500); split; intros; try reflexivity; lia.
Qed.

Lemma attack_power_validation_accepts_witness :
  validateAttackPower (-2147483648) = ok /\
  validateAttackPower 500 = ok /\
  validateAttackPower 501 = throw AttackPowerTooHigh.
Proof.
  refine (conj _ (conj _ _)).
  - apply (proj1 (proj2 (attack_power_validation_accepts (-2147483648)))); lia.
  - apply (proj1 (attack_power_validation_accepts 500)); lia.
  - apply (proj2 (proj2 (attack_power_validation_accepts 501))); lia.
Defined.

(** C2, as the code has it. [init] validates and assigns one field after
    the other, in the order name, health, attack power: the name is checked
    first, and is assigned before the health is checked; the health is
    assigned before the attack power is checked. So, for every triple whose
    health or attack power is invalid, [init] throws, and at that point:
    the identity and both counters are untouched and the attack power was
    not assigned; with an invalid name nothing at all was assigned; with a
    valid name and an invalid health the name was assigned and the health
    was not; with a valid name and health and an invalid attack power both
    the name and the health were assigned. *)
Theorem init_validates_field_by_field {PF : Platform}
    (n : string) (h a : Z) (fr : Frame) :
  ~ HealthRule h \/ ~ PowerRule a ->
  exists e fr',
    init n h a fr = Throws e fr' /\
    statics fr' = statics fr /\
    id (this fr') = id (this fr) /\
    attackPower (this fr') = attackPower (this fr) /\
    ((~ NameGrammar n /\ validateName n = throw e /\ fr' = fr) \/
     (NameGrammar n /\ ~ HealthRule h /\ validateHealth h = throw e /\
      name (this fr') = n /\ health (this fr') = health (this fr)) \/
     (NameGrammar n /\ HealthRule h /\ ~ PowerRule a /\
      validateAttackPower a = throw e /\
      name (this fr') = n /\ health (this fr') = h)).
Proof.
  intros Bad.
  destruct (validateName_cases n) as [[Vn Gn] | (e & Vn & Gn)].
  - destruct (validateHealth_cases h) as [[Vh Gh] | (e & Vh & Gh & _)].
    + destruct (validateAttackPower_cases a) as [[Va Ga] | [Va Ga]].
      * exfalso. destruct Bad as [B | B]; now apply B.
      * exists AttackPowerTooHigh, (assign_health h (assign_name n fr)).
        split; [exact (init_throw_power n h a _ fr Vn Vh Va) |].
        refine (conj eq_refl (conj eq_refl (conj eq_refl _))).
        right. right.
        exact (conj Gn (conj Gh (conj Ga (conj Va (conj eq_refl eq_refl))))).
    + exists e, (assign_name n fr).
      split; [exact (init_throw_health n h a e fr Vn Vh) |].
      refine (conj eq_refl (conj eq_refl (conj eq_refl _))).
      right. left.
      exact (conj Gn (conj Gh (conj Vh (conj eq_refl eq_refl)))).
  - exists e, fr.
    split; [exact (init_throw_name n h a e fr Vn) |].
    refine (conj eq_refl (conj eq_refl (conj eq_refl _))).
    left. exact (conj Gn (conj Vn eq_refl)).
Qed.

Lemma init_validates_field_by_field_witness :
  exists e fr',
    init (PF := signed_char) "Jack" 0 30
      {| this := fresh used_storage; statics := initial_statics |}
    = Throws e fr' /\
    name (this fr') = "Jack" /\ health (this fr') = 77 /\
    statics fr' = initial_statics.
Proof.
  destruct (init_validates_field_by_field (PF := signed_char) "Jack" 0 30
              {| this := fresh used_storage; statics := initial_statics |})
    as (e & fr' & E & S & _ & _ & C).
  - left. unfold HealthRule, MAX_HEALTH. lia.
  - exists e, fr'. split; [exact E |].
    destruct C as [(G & _) | [(_ & _ & _ & N & Hh) | (_ & Gh & _)]].
    + exfalso. apply G.
      apply (validateName_ok_iff (PF := signed_char)). vm_compute. reflexivity.
    + split; [exact N |]. split; [exact Hh | exact S].
    + exfalso. unfold HealthRule, MAX_HEALTH in Gh. lia.
Defined.

(** C2, as the claim states it, fails: constructing with the valid name
    ["Jack"] and the invalid health [0] throws at the health check, and at
    that point the name has been written over the empty name the storage
    started with. *)
Lemma init_commits_name_before_health_is_checked :
  let fr := {| this := fresh used_storage; statics := initial_statics |} in
  ~ HealthRule 0 /\
  init (PF := signed_char) "Jack" 0 30 fr
    = Throws HealthNotPositive (assign_name "Jack" fr) /\
  init (PF := unsigned_char) "Jack" 0 30 fr
    = Throws HealthNotPositive (assign_name "Jack" fr) /\
  name (this fr) = "" /\
  name (this (assign_name "Jack" fr)) = "Jack" /\
  ~ (forall (n : string) (h a : Z) (fr0 : Frame),
        ~ HealthRule h \/ ~ PowerRule a ->
        exists e, init (PF := signed_char) n h a fr0 = Throws e fr0).
Proof.
  cbv zeta.
  assert (NH : ~ HealthRule 0) by (unfold HealthRule, MAX_HEALTH; lia).
  split; [exact NH |].
  split; [vm_compute; reflexivity |].
  split; [vm_compute; reflexivity |].
  split; [reflexivity |].
  split; [reflexivity |].
  intros Claim.
  destruct (Claim "Jack" 0 30
              {| this := fresh used_storage; statics := initial_statics |}
              (or_introl NH)) as [e E].
  vm_compute in E. discriminate E.
Qed.

(** C3. Every invalid input makes its operation fail and leaves what was
    there before as it was: [createWith] on a triple that is not valid
    throws, returns no object and leaves the statics, so both counters, as
    they were; [setName] on a name that is not valid throws and leaves the
    object, so its name and all its other fields, and the statics as they
    were. *)
Theorem invalid_input_leaves_state {PF : Platform}
    (mem : GameCharacter) (n : string) (h a : Z) (st : Statics) (fr : Frame) :
  (~ ValidTriple n h a ->
   exists e st',
     createWith mem n h a st = Throws e st' /\
     st' = st /\
     getIdCount st' = getIdCount st /\
     getObjectCount st' = getObjectCount st) /\
  (~ NameGrammar n ->
   exists e fr',
     setName n fr = Throws e fr' /\
     fr' = fr /\
     getName (this fr') = getName (this fr)).
Proof.
  split.
  - intros Bad.
    destruct (createWith_rejects mem n h a st) as [e E].
    + destruct (passes (validateName n) && passes (validateHealth h)
                && passes (validateAttackPower a)) eqn:P; [| reflexivity].
      exfalso. apply Bad. apply (accepted_iff mem). exact P.
    + exists e, st. now split.
  - intros Bad. destruct (validateName_cases n) as [[_ G] | (e & V & _)].
    + now elim Bad.
    + exists e, fr. split; [exact (setName_throw n e fr V) | now split].
Qed.

Lemma invalid_input_leaves_state_witness :
  (exists e,
     createWith (PF := signed_char) used_storage "bob" 10 10 initial_statics
     = Throws e initial_statics) /\
  (exists e,
     setName (PF := signed_char) "B  b"
       {| this := used_storage; statics := initial_statics |}
     = Throws e {| this := used_storage; statics := initial_statics |}).
Proof.
  pose proof (invalid_input_leaves_state (PF := signed_char)
                used_storage "bob" 10 10 initial_statics
                {| this := used_storage; statics := initial_statics |}) as [C _].
  pose proof (invalid_input_leaves_state (PF := signed_char)
                used_storage "B  b" 10 10 initial_statics
                {| this := used_storage; statics := initial_statics |}) as [_ S].
  split.
  - destruct C as (e & st' & E & -> & _).
    + intros (G & _). apply (validateName_ok_iff (PF := signed_char)) in G.
      vm_compute in G. discriminate G.
    + exists e. exact E.
  - destruct S as (e & fr' & E & -> & _).
    + intros G. apply (validateName_ok_iff (PF := signed_char)) in G.
      vm_compute in G. discriminate G.
    + exists e. exact E.
Defined.

(** C6, as the code has it. For every valid triple, while both counters
    are below [INT_MAX], [createWith] succeeds; the accessors of the object
    return the three inputs;
    its identity is the value the counter had; and [toString] is the name,
    the decimal numeral of the health and the decimal numeral of the attack
    power, separated by one space each, with nothing after. *)
Theorem createWith_valid_triple {PF : Platform}
    (mem : GameCharacter) (n : string) (h a : Z) (st : Statics) :
  ValidTriple n h a -> room 1 st ->
  exists c,
    createWith mem n h a st =
      Returns c {| uniqueId := uniqueId st + 1;
                   ObjectCount := ObjectCount st + 1 |} /\
    getName c = n /\ getHealth c = h /\ getAttackPower c = a /\
    getPersonalId c = getIdCount st /\
    toString c = n ++ " " ++ to_string h ++ " " ++ to_string a /\
    decimal_value (to_string h) = Some h /\
    decimal_value (to_string a) = Some a.
Proof.
  intros (Gn & Gh & Ga) R.
  apply validateName_ok_iff in Gn. apply validateHealth_ok_iff in Gh.
  apply validateAttackPower_ok_iff in Ga.
  eexists. split; [exact (createWith_ok mem n h a st Gn Gh Ga R) |].
  rewrite toString_eq. cbn [getName getHealth getAttackPower getPersonalId
                             name health attackPower id].
  rewrite !decimal_value_to_string. unfold getIdCount.
  refine (conj _ (conj _ (conj _ (conj _ (conj _ (conj _ _)))))); reflexivity.
Qed.

Lemma createWith_valid_triple_witness :
  exists c,
    createWith (PF := signed_char) used_storage "Leonardo da Vinci" 1000 20
      initial_statics = Returns c {| uniqueId := 1; ObjectCount := 1 |} /\
    toString c = "Leonardo da Vinci 1000 20" /\
    getPersonalId c = 0.
Proof.
  destruct (createWith_valid_triple (PF := signed_char) used_storage
              "Leonardo da Vinci" 1000 20 initial_statics)
    as (c & E & _ & _ & _ & I & T & _).
  - split; [| split].
    + apply (validateName_ok_iff (PF := signed_char)). vm_compute. reflexivity.
    + unfold HealthRule, MAX_HEALTH. lia.
    + unfold PowerRule, MAX_POWER. lia.
  - unfold room, initial_statics, INT_MIN, INT_MAX. simpl. lia.
  - exists c. split; [exact E |]. split; [| exact I].
    rewrite T. vm_compute. reflexivity.
Defined.

(** C6, as the claim states it, fails: the triple ["Jack"], 10, 30 is
    valid, but when the counter of created objects is at [INT_MAX] the
    construction does not succeed: [uniqueId++] overflows, which is
    undefined behaviour, and no object with these fields is returned. *)
Lemma valid_triple_at_INT_MAX_is_not_created :
  ValidTriple "Jack" 10 30 /\
  createWith (PF := signed_char) used_storage "Jack" 10 30
    {| uniqueId := INT_MAX; ObjectCount := 0 |} = Undefined /\
  createWith (PF := unsigned_char) used_storage "Jack" 10 30
    {| uniqueId := INT_MAX; ObjectCount := 0 |} = Undefined /\
  ~ (forall (mem : GameCharacter) (n : string) (h a : Z) (st : Statics),
        ValidTriple n h a ->
        exists c st',
          createWith (PF := signed_char) mem n h a st = Returns c st' /\
          getName c = n /\ getHealth c = h /\ getAttackPower c = a).
Proof.
  assert (V : ValidTriple "Jack" 10 30).
  { split; [| split].
    - apply (validateName_ok_iff (PF := signed_char)). vm_compute. reflexivity.
    - unfold HealthRule, MAX_HEALTH. lia.
    - unfold PowerRule, MAX_POWER. lia. }
  split; [exact V |].
  split; [vm_compute; reflexivity |].
  split; [vm_compute; reflexivity |].
  intros Claim.
  destruct (Claim used_storage "Jack" 10 30
              {| uniqueId := INT_MAX; ObjectCount := 0 |} V)
    as (c & st' & E & _).
  vm_compute in E. discriminate E.
Qed.

(** C4, at the input where the code misses it. The name ["A 1"] breaks one
    rule only: its third character is neither a letter nor a space. It is
    non-empty, starts with an uppercase letter, is short enough, has a
    single space and does not end with one. [validateName] rejects it, but
    with the exception for a space following another space, not with the
    one for a character that is not alphabetic. *)
Theorem digit_after_space_reported_as_double_space :
  validateName (PF := signed_char) "A 1" = throw NameDoubleSpace /\
  validateName (PF := unsigned_char) "A 1" = throw NameDoubleSpace /\
  SingleSpaced "A 1" /\
  ~ EndsWithSpace "A 1" /\
  ~ Alphabetic "A 1" /\
  NameDoubleSpace <> NameInvalidCharacter.
Proof.
  split; [vm_compute; reflexivity |].
  split; [vm_compute; reflexivity |].
  split.
  { intros [|[|[|i]]]; cbn; discriminate. }
  split.
  { unfold EndsWithSpace. cbn. discriminate. }
  split.
  { intros A. destruct (A 2%nat "1"%char eq_refl) as [L | E].
    - unfold letter, uppercase_letter, lowercase_letter in L. cbn in L. lia.
    - discriminate E. }
  discriminate.
Qed.

(** C5, as the code has it. A caller makes any list of construction
    attempts, starting when
    the counter [uniqueId] is [k], and goes on after each attempt that is
    rejected. While the counters stay within [int], the run returns one
    object for each accepted attempt, and the identities of these [N]
    objects, in the order of creation, are [k], [k+1], ..., [k+N-1]; the
    counter ends at [k+N]. The counter starts at 0; an accepted attempt
    moves it by exactly one; a rejected attempt, a disposal and a rename
    leave it as it is. *)
Theorem identities_are_consecutive {PF : Platform}
    (l : list Attempt) (st : Statics) :
  room (Z.of_nat (successes l)) st ->
  getIdCount initial_statics = 0 /\
  (exists cs st',
      attempts l st = Returns cs st' /\
      List.length cs = successes l /\
      map getPersonalId cs = consecutive (getIdCount st) (List.length cs) /\
      getIdCount st' = getIdCount st + Z.of_nat (List.length cs)) /\
  (forall a s,
      accepted a = true -> room 1 s ->
      exists c s',
        attempt a s = Returns c s' /\
        getPersonalId c = getIdCount s /\
        getIdCount s' = getIdCount s + 1) /\
  (forall a s, accepted a = false -> exists e, attempt a s = Throws e s) /\
  (forall c s s' u,
      dispose c s = Returns u s' -> getIdCount s' = getIdCount s) /\
  (forall n fr fr' u,
      setName n fr = Returns u fr' ->
      getIdCount (statics fr') = getIdCount (statics fr)).
Proof.
  intros R. split; [reflexivity |]. split.
  { destruct (attempts_run l st R) as (cs & st' & E & Len & Ids & U & _).
    exists cs, st'. now refine (conj E (conj Len (conj Ids U))). }
  split.
  { intros a s A R1. destruct (attempt_accepted a s A R1) as (c & E & I).
    do 2 eexists. split; [exact E |]. split; [exact I | reflexivity]. }
  split; [exact attempt_rejected |]. split.
  - intros c s s' u. unfold dispose, dtor_GameCharacter,
      ObjectCount_pre_decrement, bind, int_result, modify.
    cbn [statics].
    destruct ((INT_MIN <=? ObjectCount s - 1) && (ObjectCount s - 1 <=? INT_MAX));
      [| discriminate].
    intros [= _ <-]. reflexivity.
  - intros n fr fr' u E.
    apply setName_returns_name_ok in E. destruct E as [_ ->]. reflexivity.
Qed.

Lemma identities_are_consecutive_witness :
  exists cs st',
    attempts (PF := signed_char)
      [TryWith used_storage "Leonardo da Vinci" 1000 20;
       TryWith used_storage "bob" 10 10;
       TryDefault used_storage;
       TryWith used_storage "Jack" 0 30;
       TryWith used_storage "Jack" 10 30]
      {| uniqueId := 5; ObjectCount := 2 |}
    = Returns cs st' /\
    map getPersonalId cs = [5; 6; 7] /\
    getIdCount st' = 8.
Proof.
  destruct (identities_are_consecutive (PF := signed_char)
              [TryWith used_storage "Leonardo da Vinci" 1000 20;
               TryWith used_storage "bob" 10 10;
               TryDefault used_storage;
               TryWith used_storage "Jack" 0 30;
               TryWith used_storage "Jack" 10 30]
              {| uniqueId := 5; ObjectCount := 2 |})
    as (_ & (cs & st' & E & Len & Ids & U) & _).
  - vm_compute. intuition discriminate.
  - exists cs, st'. split; [exact E |].
    rewrite Ids, U, Len. vm_compute. split; reflexivity.
Defined.

(** C5, as the claim states it, fails: when the counter of created
    objects is at [INT_MAX], one default construction, which no validator
    rejects, does not give an object with identity [k] and a counter at
    [k+1]: [uniqueId++] overflows, which is undefined behaviour. *)
Lemma identities_at_INT_MAX_are_not_assigned :
  accepted (PF := signed_char) (TryDefault used_storage) = true /\
  attempts (PF := signed_char) [TryDefault used_storage]
    {| uniqueId := INT_MAX; ObjectCount := 0 |} = Undefined /\
  attempts (PF := unsigned_char) [TryDefault used_storage]
    {| uniqueId := INT_MAX; ObjectCount := 0 |} = Undefined /\
  ~ (forall (l : list Attempt) (st : Statics),
        exists cs st',
          attempts (PF := signed_char) l st = Returns cs st' /\
          map getPersonalId cs
          = consecutive (getIdCount st) (List.length cs) /\
          getIdCount st' = getIdCount st + Z.of_nat (List.length cs)).
Proof.
  split; [reflexivity |].
  split; [vm_compute; reflexivity |].
  split; [vm_compute; reflexivity |].
  intros Claim.
  destruct (Claim [TryDefault used_storage]
              {| uniqueId := INT_MAX; ObjectCount := 0 |})
    as (cs & st' & E & _).
  vm_compute in E. discriminate E.
Qed.

(** C9. Disposing [M] objects when the live counter is [N], with [M] at
    most [N], returns, lowers the live counter by exactly [M] and leaves
    the counter of created objects as it is; each single disposal lowers
    the live counter by exactly one. *)
Theorem disposal_decrements_live_count
    (cs : list GameCharacter) (st : Statics) :
  Z.of_nat (List.length cs) <= getObjectCount st <= INT_MAX ->
  (exists st',
      dispose_all cs st = Returns tt st' /\
      getObjectCount st' = getObjectCount st - Z.of_nat (List.length cs) /\
      getIdCount st' = getIdCount st) /\
  (forall c s,
      INT_MIN < getObjectCount s <= INT_MAX ->
      exists s',
        dispose c s = Returns tt s' /\
        getObjectCount s' = getObjectCount s - 1 /\
        getIdCount s' = getIdCount s).
Proof.
  unfold getObjectCount, getIdCount. intros R. split.
  - eexists. split; [apply dispose_all_ok | split; reflexivity].
    unfold INT_MIN. lia.
  - intros c s Rs. eexists.
    split; [exact (dispose_ok c s Rs) | split; reflexivity].
Qed.

Lemma disposal_decrements_live_count_witness :
  exists st',
    dispose_all [used_storage; fresh used_storage]
      {| uniqueId := 3; ObjectCount := 3 |} = Returns tt st' /\
    getObjectCount st' = 1 /\ getIdCount st' = 3.
Proof.
  destruct (disposal_decrements_live_count [used_storage; fresh used_storage]
              {| uniqueId := 3; ObjectCount := 3 |})
    as ((st' & E & O & I) & _).
  - unfold getObjectCount, INT_MAX. simpl. lia.
  - exists st'. split; [exact E |]. split; [exact O | exact I].
Defined.

(** C10, as the code has it. Take a name of at most 32 characters that
    starts with an uppercase letter, and a space in it before which there
    are only letters and spaces, no two of these spaces consecutive. If the
    character right after that space is NUL, be it the terminator (the
    space is the last character) or a NUL inside the name, [validateName]
    throws the trailing-space exception; in the second case the space is
    not the last character of the name. *)
Theorem space_before_NUL_is_trailing_space {PF : Platform} (p r : string) :
  (exists c p', p = String c p' /\ uppercase_letter c) ->
  Alphabetic p -> SingleSpaced p ->
  Z.of_nat (String.length (p ++ String SPACE r)) <= MAX_NAME ->
  first_or_NUL r = NUL ->
  validateName (p ++ String SPACE r) = throw NameTrailingSpace /\
  str_at (p ++ String SPACE r) (String.length p) = SPACE /\
  str_at (p ++ String SPACE r) (String.length p + 1) = NUL /\
  (r <> "" ->
   (String.length p < String.length (p ++ String SPACE r) - 1)%nat).
Proof.
  intros (c & p' & -> & U) A S L N.
  split.
  { cbn [append] in L |- *. rewrite (validateName_past_head c _ U L).
    apply (scan_space_NUL false (String c p') r); [| exact N].
    apply spaced_letters_positions.
    split; [exact A | split; [exact S | discriminate]]. }
  split; [apply str_at_app_here |].
  split; [rewrite str_at_app_next; exact N |].
  intros NE. rewrite length_append. cbn [String.length].
  destruct r as [|d r]; [now elim NE |]. cbn [String.length]. lia.
Qed.

Lemma space_before_NUL_is_trailing_space_witness :
  validateName (PF := signed_char)
    (String "A" (String " " (String NUL "b"))) = throw NameTrailingSpace /\
  ~ EndsWithSpace (String "A" (String " " (String NUL "b"))).
Proof.
  split.
  - apply (space_before_NUL_is_trailing_space (PF := signed_char)
             "A" (String NUL "b")).
    + exists "A"%char, "". split; [reflexivity |].
      unfold uppercase_letter. simpl. lia.
    + intros [|i] c0 E; simpl in E; [| discriminate].
      injection E as <-. left. left. unfold uppercase_letter. simpl. lia.
    + intros [|i]; simpl; discriminate.
    + unfold MAX_NAME. simpl. lia.
    + reflexivity.
  - unfold EndsWithSpace. simpl. discriminate.
Defined.

(** C10, as the claim states it, fails: in the name made of [b], a space,
    NUL and [x], a space is immediately followed by NUL, and [validateName]
    rejects the name for its first character, not for a trailing space. *)
Lemma space_before_NUL_after_bad_start :
  str_at (String "b" (String " " (String NUL "x"))) 1 = SPACE /\
  str_at (String "b" (String " " (String NUL "x"))) (1 + 1) = NUL /\
  validateName (PF := signed_char) (String "b" (String " " (String NUL "x")))
    = throw NameMustStartUppercase /\
  validateName (PF := unsigned_char) (String "b" (String " " (String NUL "x")))
    = throw NameMustStartUppercase /\
  NameMustStartUppercase <> NameTrailingSpace /\
  ~ (forall (n : string) (i : nat),
        str_at n i = SPACE -> str_at n (i + 1) = NUL ->
        validateName (PF := signed_char) n = throw NameTrailingSpace).
Proof.
  split; [reflexivity |]. split; [reflexivity |].
  split; [vm_compute; reflexivity |]. split; [vm_compute; reflexivity |].
  split; [discriminate |].
  intros Claim.
  specialize (Claim (String "b" (String " " (String NUL "x"))) 1%nat
                eq_refl eq_refl).
  vm_compute in Claim. discriminate Claim.
Qed.

(* ================================================================= *)
(** ** Further properties of the code *)

(** *** Portability and storage *)

Lemma outside_upper_any (P1 P2 : Platform) (c : ascii) :
  outside (PF := P1) "A" "Z" c = outside (PF := P2) "A" "Z" c.
Proof.
  pose proof (outside_upper (PF := P1) c) as H1.
  pose proof (outside_upper (PF := P2) c) as H2.
  destruct (outside (PF := P1) "A" "Z" c), (outside (PF := P2) "A" "Z" c);
    try reflexivity.
  - apply H1, H2. reflexivity.
  - symmetry. apply H2, H1. reflexivity.
Qed.

Lemma outside_lower_any (P1 P2 : Platform) (c : ascii) :
  outside (PF := P1) "a" "z" c = outside (PF := P2) "a" "z" c.
Proof.
  pose proof (outside_lower (PF := P1) c) as H1.
  pose proof (outside_lower (PF := P2) c) as H2.
  destruct (outside (PF := P1) "a" "z" c), (outside (PF := P2) "a" "z" c);
    try reflexivity.
  - apply H1, H2. reflexivity.
  - symmetry. apply H2, H1. reflexivity.
Qed.

Lemma validateName_loop_any (P1 P2 : Platform) (s : string)
    (todo i : nat) (space : bool) :
  validateName_loop (PF := P1) s todo i space
  = validateName_loop (PF := P2) s todo i space.
Proof.
  revert i space. induction todo as [|todo IH]; intros i space.
  - reflexivity.
  - cbn [validateName_loop].
    rewrite (outside_upper_any P1 P2), (outside_lower_any P1 P2), !IH.
    reflexivity.
Qed.

(** X1. The verdict of [validateName] on a name does not depend on whether
    plain [char] is signed or unsigned: every comparison it makes is
    against a letter, whose code is below 128. *)
Theorem validateName_portable (P1 P2 : Platform) (n : string) :
  validateName (PF := P1) n = validateName (PF := P2) n.
Proof.
  unfold validateName.
  rewrite (outside_upper_any P1 P2), (validateName_loop_any P1 P2).
  reflexivity.
Qed.

(** What [new GameCharacter(name, health, attackPower)] comes to. *)
Lemma createWith_outcome {PF : Platform} (mem : GameCharacter) (n : string)
    (h a : Z) (st : Statics) :
  createWith mem n h a st =
  match validateName n with
  | inl e => Throws e st
  | inr _ =>
      match validateHealth h with
      | inl e => Throws e st
      | inr _ =>
          match validateAttackPower a with
          | inl e => Throws e st
          | inr _ =>
              if (INT_MIN <=? uniqueId st + 1) && (uniqueId st + 1 <=? INT_MAX)
              then
                if (INT_MIN <=? ObjectCount st + 1)
                   && (ObjectCount st + 1 <=? INT_MAX)
                then
                  Returns {| name := n; health := h; attackPower := a;
                             id := uniqueId st |}
                          {| uniqueId := uniqueId st + 1;
                             ObjectCount := ObjectCount st + 1 |}
                else Undefined
              else Undefined
          end
      end
  end.
Proof.
  unfold createWith, construct.
  destruct (validateName n) as [en | []] eqn:Vn.
  { now rewrite (init_throw_name n h a en _ Vn). }
  destruct (validateHealth h) as [eh | []] eqn:Vh.
  { now rewrite (init_throw_health n h a eh _ Vn Vh). }
  destruct (validateAttackPower a) as [ea | []] eqn:Va.
  { now rewrite (init_throw_power n h a ea _ Vn Vh Va). }
  unfold init.
  unfold bind at 1. rewrite (setName_ok n _ Vn).
  unfold bind at 1. rewrite (setHealth_ok h _ Vh).
  unfold bind at 1. rewrite (setAttackPower_ok a _ Va).
  unfold bind, uniqueId_post_increment, ObjectCount_pre_increment, bind,
    int_result, modify, ret.
  cbn -[INT_MIN INT_MAX Z.leb Z.add].
  destruct ((INT_MIN <=? uniqueId st + 1) && (uniqueId st + 1 <=? INT_MAX));
    [| reflexivity].
  cbn -[INT_MIN INT_MAX Z.leb Z.add].
  destruct ((INT_MIN <=? ObjectCount st + 1) && (ObjectCount st + 1 <=? INT_MAX));
    reflexivity.
Qed.

(** X2. What a construction returns, throws or does to the counters does
    not depend on what the storage of the new object held before, nor on
    the signedness of [char]: every member is written before a constructor
    returns, so nothing uninitialised is left in an object. *)
Theorem construction_ignores_storage (P1 P2 : Platform)
    (mem1 mem2 : GameCharacter) (n : string) (h a : Z) (st : Statics) :
  createWith (PF := P1) mem1 n h a st = createWith (PF := P2) mem2 n h a st /\
  createDefault (PF := P1) mem1 st = createDefault (PF := P2) mem2 st.
Proof.
  split.
  - rewrite !createWith_outcome, (validateName_portable P1 P2). reflexivity.
  - change (createWith (PF := P1) mem1 "Name" (-1) 0 st
            = createWith (PF := P2) mem2 "Name" (-1) 0 st).
    rewrite !createWith_outcome, (validateName_portable P1 P2). reflexivity.
Qed.

(** *** The exceptions of [validateName] *)

Lemma scan_exceptions {PF : Platform} (space : bool) (r : string)
    (e : exception) :
  scan space r = throw e ->
  e = NameTrailingSpace \/ e = NameDoubleSpace \/ e = NameInvalidCharacter.
Proof.
  revert space. induction r as [|c r IH]; intros space; cbn [scan].
  - discriminate.
  - destruct ((c =? " ")%char && (first_or_NUL r =? NUL)%char).
    { intros [= <-]. now left. }
    destruct (outside "A" "Z" c && outside "a" "z" c); [| apply IH].
    destruct ((c =? " ")%char && negb space); [apply IH |].
    destruct space; intros [= <-]; [right; now left | right; now right].
Qed.

Lemma loop_exception_not_head (e : exception) :
  e = NameTrailingSpace \/ e = NameDoubleSpace \/ e = NameInvalidCharacter ->
  e <> EmptyName /\ e <> NameMustStartUppercase /\ e <> NameTooLong.
Proof.
  intros [-> | [-> | ->]];
    refine (conj _ (conj _ _)); intros E; vm_compute in E; discriminate E.
Qed.

Lemma StartsUppercase_cons (c : ascii) (r : string) :
  StartsUppercase (String c r) <-> uppercase_letter c.
Proof.
  unfold StartsUppercase. cbn. split.
  - intros (d & [= <-] & U). exact U.
  - intros U. now exists c.
Qed.

Lemma StartsUppercase_empty : ~ StartsUppercase "".
Proof. intros (c & E & _). discriminate E. Qed.

(** X3. The three checks before the loop decide in this order, before
    anything else about the name is looked at: the empty-name exception is
    thrown exactly for the empty name; the first-character exception
    exactly for a non-empty name that does not start with an uppercase
    letter, however long it is; and the length exception exactly for a name
    that starts with an uppercase letter and has more than 32 characters,
    whatever its other characters are. *)
Theorem validateName_head_errors {PF : Platform} (n : string) :
  (validateName n = throw EmptyName <-> n = "") /\
  (validateName n = throw NameMustStartUppercase
   <-> n <> "" /\ ~ StartsUppercase n) /\
  (validateName n = throw NameTooLong
   <-> StartsUppercase n /\ MAX_NAME < Z.of_nat (String.length n)).
Proof.
  destruct n as [|c r].
  - assert (V : validateName "" = throw EmptyName) by reflexivity.
    rewrite V. refine (conj _ (conj _ _)); split.
    + reflexivity.
    + reflexivity.
    + intros E. vm_compute in E. discriminate E.
    + intros [NE _]. now elim NE.
    + intros E. vm_compute in E. discriminate E.
    + intros [S _]. now apply StartsUppercase_empty in S.
  - rewrite StartsUppercase_cons.
    destruct (outside "A" "Z" c) eqn:U.
    + assert (V : validateName (String c r) = throw NameMustStartUppercase).
      { unfold validateName.
        change (String c r =? "")%string with false.
        change (str_at (String c r) 0) with c. now rewrite U. }
      assert (NU : ~ uppercase_letter c).
      { intros Uc. apply outside_upper in Uc. congruence. }
      rewrite V. refine (conj _ (conj _ _)); split.
      * intros E. vm_compute in E. discriminate E.
      * discriminate.
      * intros _. split; [discriminate | exact NU].
      * reflexivity.
      * intros E. vm_compute in E. discriminate E.
      * intros [Uc _]. now elim NU.
    + apply outside_upper in U.
      destruct (Z.gtb_spec (Z.of_nat (String.length (String c r))) MAX_NAME)
        as [L | L].
      * assert (V : validateName (String c r) = throw NameTooLong).
        { unfold validateName.
          change (String c r =? "")%string with false.
          change (str_at (String c r) 0) with c.
          apply outside_upper in U. rewrite U.
          destruct (Z.gtb_spec (Z.of_nat (String.length (String c r))) MAX_NAME);
            [reflexivity | lia]. }
        rewrite V. refine (conj _ (conj _ _)); split.
        -- intros E. vm_compute in E. discriminate E.
        -- discriminate.
        -- intros E. vm_compute in E. discriminate E.
        -- intros [_ NU]. now elim NU.
        -- intros _. split; [exact U | exact L].
        -- reflexivity.
      * rewrite (validateName_past_head c r U L).
        assert (X : forall e, scan false (String c r) = throw e ->
                              e <> EmptyName /\ e <> NameMustStartUppercase
                              /\ e <> NameTooLong).
        { intros e E. apply loop_exception_not_head.
          exact (scan_exceptions false _ e E). }
        refine (conj _ (conj _ _)); split.
        -- intros E. apply X in E. now elim (proj1 E).
        -- discriminate.
        -- intros E. apply X in E. now elim (proj1 (proj2 E)).
        -- intros [_ NU]. now elim NU.
        -- intros E. apply X in E. now elim (proj2 (proj2 E)).
        -- intros [_ L']. lia.
Qed.

Lemma validateName_head_errors_witness :
  validateName (PF := signed_char)
    "an overlong name that starts with a lowercase letter"
  = throw NameMustStartUppercase /\
  validateName (PF := signed_char) "A123456789012345678901234567890123"
  = throw NameTooLong.
Proof.
  split.
  - apply (proj1 (proj2 (validateName_head_errors (PF := signed_char) _))).
    split; [discriminate |].
    intros S. apply StartsUppercase_cons in S.
    unfold uppercase_letter in S. simpl in S. lia.
  - apply (proj2 (proj2 (validateName_head_errors (PF := signed_char) _))).
    split.
    + apply StartsUppercase_cons. unfold uppercase_letter. simpl. lia.
    + unfold MAX_NAME. simpl. lia.
Defined.

Lemma validateName_exceptions {PF : Platform} (n : string) (e : exception) :
  validateName n = throw e -> name_exception e.
Proof.
  unfold validateName, name_exception.
  destruct (n =? "")%string.
  { intros [= <-]. now left. }
  destruct (outside "A" "Z" (str_at n 0)).
  { intros [= <-]. right. now left. }
  destruct (Z.of_nat (String.length n) >? MAX_NAME).
  { intros [= <-]. right. right. now left. }
  rewrite validateName_loop_whole. intros E.
  apply scan_exceptions in E. tauto.
Qed.

Lemma name_exception_not_other (e : exception) :
  name_exception e -> ~ HealthOutOfRange e /\ ~ power_exception e.
Proof.
  unfold name_exception, HealthOutOfRange, power_exception.
  intros [-> | [-> | [-> | [-> | [-> | ->]]]]];
    (split; [intros [E | E] | intros E]); vm_compute in E; discriminate E.
Qed.

Lemma health_exception_not_power (e : exception) :
  HealthOutOfRange e -> ~ power_exception e.
Proof.
  unfold HealthOutOfRange, power_exception.
  intros [-> | ->] E; vm_compute in E; discriminate E.
Qed.

(** X4. When a construction throws, the exception tells which field was
    refused, and it is the first refused field in the order name, health,
    attack power: a name exception means that the name breaks the name
    rule; a health exception that the name is fine and the health is not;
    the attack power exception that name and health are fine and the
    attack power is not. The three families of exceptions are disjoint, so
    the caller can tell them apart. *)
Theorem construction_failure_names_the_field {PF : Platform}
    (mem : GameCharacter) (n : string) (h a : Z) (st st' : Statics)
    (e : exception) :
  createWith mem n h a st = Throws e st' ->
  ((name_exception e /\ ~ NameGrammar n) \/
   (HealthOutOfRange e /\ NameGrammar n /\ ~ HealthRule h) \/
   (power_exception e /\ NameGrammar n /\ HealthRule h /\ ~ PowerRule a)) /\
  (name_exception e -> ~ HealthOutOfRange e /\ ~ power_exception e) /\
  (HealthOutOfRange e -> ~ power_exception e).
Proof.
  intros E. split; [| split;
    [apply name_exception_not_other | apply health_exception_not_power]].
  rewrite createWith_outcome in E.
  destruct (validateName_cases n) as [[Vn Gn] | (en & Vn & Gn)]; rewrite Vn in E.
  2:{ injection E as <- _. left. split; [| exact Gn].
      exact (validateName_exceptions n en Vn). }
  cbn in E.
  destruct (validateHealth_cases h) as [[Vh Gh] | (eh & Vh & Gh & Oh)];
    rewrite Vh in E.
  2:{ injection E as <- _. right. left. now split. }
  cbn in E.
  destruct (validateAttackPower_cases a) as [[Va Ga] | [Va Ga]];
    rewrite Va in E.
  2:{ injection E as <- _. right. right. unfold power_exception. tauto. }
  cbn -[INT_MIN INT_MAX Z.leb Z.add] in E.
  destruct ((INT_MIN <=? uniqueId st + 1) && (uniqueId st + 1 <=? INT_MAX));
    [| discriminate E].
  destruct ((INT_MIN <=? ObjectCount st + 1) && (ObjectCount st + 1 <=? INT_MAX));
    discriminate E.
Qed.

Lemma construction_failure_names_the_field_witness :
  HealthOutOfRange HealthTooHigh /\
  NameGrammar "Jack" /\ ~ HealthRule 1001.
Proof.
  destruct (construction_failure_names_the_field (PF := signed_char)
              used_storage "Jack" 1001 9999 initial_statics initial_statics
              HealthTooHigh) as [[(N & _) | [(Hh & Gn & Gh) | (P & _)]] _].
  - vm_compute. reflexivity.
  - exfalso. apply name_exception_not_other in N.
    apply (proj1 N). now right.
  - split; [exact Hh | split; [exact Gn | exact Gh]].
  - exfalso. vm_compute in P. discriminate P.
Defined.

(** *** The exceptions of the loop *)

Lemma flag_after_true (b : bool) (p : string) :
  flag_after b p = true <-> (p = "" /\ b = true) \/ EndsWithSpace p.
Proof.
  revert b. induction p as [|c p IH]; intros b; cbn [flag_after].
  - split; [intros ->; now left | intros [[_ E] | E]; [exact E |]].
    discriminate E.
  - rewrite IH, EndsWithSpace_cons. split.
    + intros [[-> E] | E].
      * right. left. split; [reflexivity |]. now apply Ascii.eqb_eq in E.
      * right. right. split; [| exact E]. intros ->. discriminate E.
    + intros [[E _] | [[-> ->] | [_ E]]]; [discriminate E | | now right].
      left. split; reflexivity.
Qed.

Lemma flag_after_false (p : string) :
  ~ EndsWithSpace p -> flag_after false p = false.
Proof.
  intros NE. destruct (flag_after false p) eqn:F; [| reflexivity].
  apply flag_after_true in F. destruct F as [[_ F] | F];
    [discriminate F | now elim NE].
Qed.

(** After a prefix that passes the checks before the loop and that the
    loop runs across, the verdict is the loop's on the rest. *)
Lemma validateName_after_prefix {PF : Platform} (p rest : string) :
  StartsUppercase p -> Alphabetic p -> SingleSpaced p ->
  Z.of_nat (String.length (p ++ rest)) <= MAX_NAME ->
  (EndsWithSpace p -> first_or_NUL rest <> NUL) ->
  validateName (p ++ rest) = scan (flag_after false p) rest.
Proof.
  intros S A SS L NN. destruct p as [|c p].
  { now apply StartsUppercase_empty in S. }
  apply StartsUppercase_cons in S.
  cbn [append] in L |- *. rewrite (validateName_past_head c _ S L).
  apply (scan_app false (String c p) rest); [| exact NN].
  apply spaced_letters_positions.
  split; [exact A | split; [exact SS | discriminate]].
Qed.

(** X5. After a start that is in order (an uppercase first letter, letters
    and single spaces, the last of them not a space, at most 32 characters
    in all), a character that is neither a letter nor a space makes
    [validateName] throw the invalid-character exception, whatever comes
    after it. NUL is such a character. *)
Theorem nonletter_after_letter_is_invalid_character {PF : Platform}
    (p r : string) (c : ascii) :
  StartsUppercase p -> Alphabetic p -> SingleSpaced p -> ~ EndsWithSpace p ->
  ~ letter c -> c <> SPACE ->
  Z.of_nat (String.length (p ++ String c r)) <= MAX_NAME ->
  validateName (p ++ String c r) = throw NameInvalidCharacter.
Proof.
  intros S A SS NE NL NS L.
  rewrite (validateName_after_prefix p (String c r) S A SS L);
    [| intros E; now elim NE].
  rewrite (flag_after_false p NE). cbn [scan].
  assert (Hc : (c =? " ")%char = false) by now apply Ascii.eqb_neq.
  rewrite Hc. cbn [andb].
  apply not_a_letter_true in NL. rewrite NL. reflexivity.
Qed.

Lemma nonletter_after_letter_is_invalid_character_witness :
  validateName (PF := signed_char) "Leonardo da Vinci-2"
  = throw NameInvalidCharacter.
Proof.
  apply (nonletter_after_letter_is_invalid_character (PF := signed_char)
           "Leonardo da Vinci" "2" "-"%char).
  - apply StartsUppercase_cons. unfold uppercase_letter. simpl. lia.
  - apply (spaced_letters_positions false "Leonardo da Vinci").
    apply (proj1 (scan_ok (PF := signed_char) false "Leonardo da Vinci")).
    vm_compute. reflexivity.
  - apply (spaced_letters_positions false "Leonardo da Vinci").
    apply (proj1 (scan_ok (PF := signed_char) false "Leonardo da Vinci")).
    vm_compute. reflexivity.
  - unfold EndsWithSpace. simpl. discriminate.
  - unfold letter, uppercase_letter, lowercase_letter. simpl. lia.
  - discriminate.
  - unfold MAX_NAME. simpl. lia.
Defined.

(** X6. After a start that is in order, two spaces in a row of which the
    second is followed by a character other than NUL make [validateName]
    throw the double-space exception, whatever comes after them. (When the
    second space is the last character, or NUL follows it, the exception
    is the trailing-space one.) *)
Theorem two_spaces_are_a_double_space {PF : Platform} (p r : string) :
  StartsUppercase p -> Alphabetic p -> SingleSpaced p ->
  first_or_NUL r <> NUL ->
  Z.of_nat (String.length (p ++ String SPACE (String SPACE r))) <= MAX_NAME ->
  validateName (p ++ String SPACE (String SPACE r)) = throw NameDoubleSpace.
Proof.
  intros S A SS NN L.
  rewrite (validateName_after_prefix p _ S A SS L); [| discriminate].
  assert (O : outside "A" "Z" SPACE && outside "a" "z" SPACE = true)
    by (apply not_a_letter_true, space_not_letter).
  apply Ascii.eqb_neq in NN.
  cbn [scan first_or_NUL]. change (SPACE =? " ")%char with true.
  change (SPACE =? NUL)%char with false. cbn [andb]. rewrite O.
  destruct (flag_after false p); cbn [negb andb]; [reflexivity |].
  rewrite NN. reflexivity.
Qed.

Lemma two_spaces_are_a_double_space_witness :
  validateName (PF := signed_char) "B  b" = throw NameDoubleSpace.
Proof.
  apply (two_spaces_are_a_double_space (PF := signed_char) "B" "b").
  - apply StartsUppercase_cons. unfold uppercase_letter. simpl. lia.
  - intros [|i] c E; simpl in E; [| discriminate].
    injection E as <-. left. left. unfold uppercase_letter. simpl. lia.
  - intros [|i]; simpl; discriminate.
  - discriminate.
  - unfold MAX_NAME. simpl. lia.
Defined.

(** X7. After a start that is in order and does not end with a space, a
    single space followed by a character that is no letter, no space and
    not NUL makes [validateName] throw the double-space exception, not the
    invalid-character one: once the loop's flag is set, the branch for a
    second space is taken without a test that the character is a space. *)
Theorem nonletter_after_space_is_a_double_space {PF : Platform}
    (p r : string) (c : ascii) :
  StartsUppercase p -> Alphabetic p -> SingleSpaced p -> ~ EndsWithSpace p ->
  ~ letter c -> c <> SPACE -> c <> NUL ->
  Z.of_nat (String.length (p ++ String SPACE (String c r))) <= MAX_NAME ->
  validateName (p ++ String SPACE (String c r)) = throw NameDoubleSpace.
Proof.
  intros S A SS NE NL NS NN L. destruct p as [|c0 p].
  { now apply StartsUppercase_empty in S. }
  apply StartsUppercase_cons in S.
  apply validateName_nonletter_after_space; auto.
  - apply spaced_letters_positions.
    split; [exact A | split; [exact SS | discriminate]].
  - now apply flag_after_false.
Qed.

Lemma nonletter_after_space_is_a_double_space_witness :
  validateName (PF := signed_char) "Agent 007" = throw NameDoubleSpace.
Proof.
  apply (nonletter_after_space_is_a_double_space (PF := signed_char)
           "Agent" "07" "0"%char).
  - apply StartsUppercase_cons. unfold uppercase_letter. simpl. lia.
  - apply (spaced_letters_positions false "Agent").
    apply (proj1 (scan_ok (PF := signed_char) false "Agent")).
    vm_compute. reflexivity.
  - apply (spaced_letters_positions false "Agent").
    apply (proj1 (scan_ok (PF := signed_char) false "Agent")).
    vm_compute. reflexivity.
  - unfold EndsWithSpace. simpl. discriminate.
  - unfold letter, uppercase_letter, lowercase_letter. simpl. lia.
  - discriminate.
  - discriminate.
  - unfold MAX_NAME. simpl. lia.
Defined.

(** *** Renaming and the validity of objects *)

Lemma assign_name_same (fr : Frame) : assign_name (name (this fr)) fr = fr.
Proof. destruct fr as [[n h a i] st]. reflexivity. Qed.

(** X8. [setName] with a name that satisfies the name rule returns, puts
    that name in the object and changes nothing else: health, attack
    power, identity and both counters are as before. Renaming an object to
    the name it has changes nothing at all, and of two renamings in a row
    only the second shows. *)
Theorem rename_replaces_only_the_name {PF : Platform}
    (n : string) (fr : Frame) :
  NameGrammar n ->
  setName n fr = Returns tt (assign_name n fr) /\
  getName (this (assign_name n fr)) = n /\
  getHealth (this (assign_name n fr)) = getHealth (this fr) /\
  getAttackPower (this (assign_name n fr)) = getAttackPower (this fr) /\
  getPersonalId (this (assign_name n fr)) = getPersonalId (this fr) /\
  statics (assign_name n fr) = statics fr /\
  (name (this fr) = n -> setName n fr = Returns tt fr) /\
  (forall m, NameGrammar m ->
             (setName m ;; setName n)%stmt fr = setName n fr).
Proof.
  intros G. apply validateName_ok_iff in G.
  pose proof (setName_ok n fr G) as E.
  refine (conj E (conj eq_refl (conj eq_refl (conj eq_refl
            (conj eq_refl (conj eq_refl (conj _ _))))))).
  - intros <-. rewrite E. now rewrite assign_name_same.
  - intros m Gm. apply validateName_ok_iff in Gm.
    unfold bind. rewrite (setName_ok m fr Gm), E.
    now rewrite (setName_ok n _ G).
Qed.

Lemma rename_replaces_only_the_name_witness :
  setName (PF := signed_char) "B"
    {| this := {| name := "Name"; health := -1; attackPower := 0; id := 1 |};
       statics := {| uniqueId := 2; ObjectCount := 2 |} |}
  = Returns tt
      {| this := {| name := "B"; health := -1; attackPower := 0; id := 1 |};
         statics := {| uniqueId := 2; ObjectCount := 2 |} |}.
Proof.
  apply (rename_replaces_only_the_name (PF := signed_char) "B").
  apply (validateName_ok_iff (PF := signed_char)). vm_compute. reflexivity.
Defined.

(** X9. The member functions keep objects valid. Every object that
    [createWith] or [createDefault] returns has a name, a health and an
    attack power that satisfy their rules; and [setName], whether it
    returns or throws, leaves an object whose fields satisfy the rules
    with fields that satisfy them. *)
Theorem objects_stay_well_formed {PF : Platform} :
  (forall mem n h a st c st',
      createWith mem n h a st = Returns c st' -> WellFormed c) /\
  (forall mem st c st', createDefault mem st = Returns c st' -> WellFormed c) /\
  (forall n fr,
      WellFormed (this fr) ->
      match setName n fr with
      | Returns _ fr' => WellFormed (this fr')
      | Throws _ fr' => WellFormed (this fr')
      | Undefined => False
      end).
Proof.
  assert (C : forall mem n h a st c st',
             createWith mem n h a st = Returns c st' -> WellFormed c).
  { intros mem n h a st c st' E. rewrite createWith_outcome in E.
    destruct (validateName_cases n) as [[Vn Gn] | (en & Vn & _)];
      rewrite Vn in E; [| discriminate E].
    destruct (validateHealth_cases h) as [[Vh Gh] | (eh & Vh & _)];
      rewrite Vh in E; [| discriminate E].
    destruct (validateAttackPower_cases a) as [[Va Ga] | [Va _]];
      rewrite Va in E; [| discriminate E].
    cbn -[INT_MIN INT_MAX Z.leb Z.add] in E.
    destruct ((INT_MIN <=? uniqueId st + 1) && (uniqueId st + 1 <=? INT_MAX));
      [| discriminate E].
    destruct ((INT_MIN <=? ObjectCount st + 1)
              && (ObjectCount st + 1 <=? INT_MAX)); [| discriminate E].
    injection E as <- _. exact (conj Gn (conj Gh Ga)). }
  split; [exact C |]. split.
  - intros mem st c st' E. exact (C mem "Name" (-1) 0 st c st' E).
  - intros n fr W.
    destruct (validateName_cases n) as [[Vn Gn] | (en & Vn & _)].
    + rewrite (setName_ok n fr Vn). destruct W as (_ & Wh & Wa).
      exact (conj Gn (conj Wh Wa)).
    + rewrite (setName_throw n en fr Vn). exact W.
Qed.

Lemma objects_stay_well_formed_witness :
  WellFormed {| name := "Jack"; health := 10; attackPower := 30; id := 0 |}.
Proof.
  apply (proj1 (objects_stay_well_formed (PF := signed_char))
           used_storage "Jack" 10 30 initial_statics _
           {| uniqueId := 1; ObjectCount := 1 |}).
  vm_compute. reflexivity.
Defined.

(** *** Counters and identities over a run *)

(** X10. Creating and disposing cancel out on the live counter: a caller
    that makes any list of attempts and then deletes every object it got
    ends with the live counter where it started, while the counter of
    created objects has moved up by the number of objects. *)
Theorem create_then_dispose_restores_live_count {PF : Platform}
    (l : list Attempt) (st : Statics) :
  room (Z.of_nat (successes l)) st ->
  exists cs st' st'',
    attempts l st = Returns cs st' /\
    dispose_all cs st' = Returns tt st'' /\
    getObjectCount st' = getObjectCount st + Z.of_nat (List.length cs) /\
    getObjectCount st'' = getObjectCount st /\
    getIdCount st'' = getIdCount st + Z.of_nat (List.length cs).
Proof.
  intros R. destruct (attempts_run l st R) as (cs & st' & E & Len & _ & U & O).
  destruct R as [[U0 U1] [O0 O1]]. rewrite <- Len in *.
  exists cs, st'. eexists.
  split; [exact E |]. split; [apply dispose_all_ok; lia |].
  unfold getObjectCount, getIdCount. cbn [ObjectCount uniqueId].
  refine (conj O (conj _ U)). lia.
Qed.

Lemma create_then_dispose_restores_live_count_witness :
  exists cs st' st'',
    attempts (PF := signed_char)
      [TryWith used_storage "Leonardo da Vinci" 1000 20;
       TryWith used_storage "bob" 10 10;
       TryDefault used_storage] initial_statics = Returns cs st' /\
    dispose_all cs st' = Returns tt st'' /\
    getObjectCount st'' = 0 /\ getIdCount st'' = 2.
Proof.
  destruct (create_then_dispose_restores_live_count (PF := signed_char)
              [TryWith used_storage "Leonardo da Vinci" 1000 20;
               TryWith used_storage "bob" 10 10;
               TryDefault used_storage] initial_statics)
    as (cs & st' & st'' & E & D & _ & O & U).
  - vm_compute. intuition discriminate.
  - exists cs, st', st''. split; [exact E |]. split; [exact D |].
    split; [exact O |]. rewrite U.
    replace (List.length cs) with 2%nat; [reflexivity |].
    vm_compute in E. injection E as <- _. reflexivity.
Defined.

Lemma consecutive_bounds (k : Z) (n : nat) (z : Z) :
  In z (consecutive k n) -> k <= z < k + Z.of_nat n.
Proof.
  unfold consecutive. intros I. apply in_map_iff in I.
  destruct I as (i & <- & I). apply in_seq in I. lia.
Qed.

Lemma consecutive_NoDup (k : Z) (n : nat) : NoDup (consecutive k n).
Proof.
  revert k. induction n as [|n IH]; intros k.
  - constructor.
  - rewrite consecutive_S. constructor; [| apply IH].
    intros I. apply consecutive_bounds in I. lia.
Qed.

(** X11. No two objects created in a run of attempts have the same
    identity, and every identity handed out lies between the value the
    counter had before the run and the value it has after it, so that
    objects created later cannot repeat it. *)
Theorem created_identities_are_distinct {PF : Platform}
    (l : list Attempt) (st : Statics) :
  room (Z.of_nat (successes l)) st ->
  exists cs st',
    attempts l st = Returns cs st' /\
    NoDup (map getPersonalId cs) /\
    (forall c, In c cs ->
               getIdCount st <= getPersonalId c < getIdCount st').
Proof.
  intros R. destruct (attempts_run l st R) as (cs & st' & E & _ & Ids & U & _).
  exists cs, st'. split; [exact E |].
  change (map getPersonalId cs) with (map id cs).
  split.
  - rewrite Ids. apply consecutive_NoDup.
  - intros c I. unfold getIdCount, getPersonalId. rewrite U.
    apply consecutive_bounds. rewrite <- Ids. now apply in_map.
Qed.

Lemma created_identities_are_distinct_witness :
  exists cs st',
    attempts (PF := signed_char)
      [TryDefault used_storage; TryWith used_storage "Jack" 10 30]
      initial_statics = Returns cs st' /\
    NoDup (map getPersonalId cs).
Proof.
  destruct (created_identities_are_distinct (PF := signed_char)
              [TryDefault used_storage; TryWith used_storage "Jack" 10 30]
              initial_statics) as (cs & st' & E & N & _).
  - vm_compute. intuition discriminate.
  - exists cs, st'. split; [exact E | exact N].
Defined.

(** *** The text of an object *)

Lemma space_free_empty : space_free "".
Proof. intros [|i]; discriminate. Qed.

Lemma space_free_cons (c : ascii) (s : string) :
  c <> SPACE -> space_free s -> space_free (String c s).
Proof.
  intros Hc Hs [|i]; cbn.
  - intros [= E]. now elim Hc.
  - apply Hs.
Qed.

Lemma uint_space_free (d : Decimal.uint) :
  space_free (NilEmpty.string_of_uint d).
Proof.
  induction d; cbn [NilEmpty.string_of_uint];
    [apply space_free_empty | apply space_free_cons; [discriminate | exact IHd] ..].
Qed.

Lemma to_string_space_free (z : Z) : space_free (to_string z).
Proof.
  unfold to_string.
  destruct (Z.to_int z) as [d | d]; cbn [NilZero.string_of_int];
    [| apply space_free_cons; [discriminate |]];
    (destruct d; [apply space_free_cons; [discriminate | apply space_free_empty]
                 | apply (uint_space_free _) ..]).
Qed.

Lemma to_string_inj (a b : Z) : to_string a = to_string b -> a = b.
Proof.
  intros E. pose proof (decimal_value_to_string a) as Da.
  rewrite E, decimal_value_to_string in Da. now injection Da.
Qed.

Lemma space_inside (u y : string) : ~ space_free (u ++ String SPACE y).
Proof.
  intros F. apply (F (String.length u + 0)%nat).
  rewrite get_app_right. reflexivity.
Qed.

(** A text is cut in one way only at its last space. *)
Lemma split_at_last_space (u v x y : string) :
  space_free x -> space_free y ->
  u ++ String SPACE x = v ++ String SPACE y -> u = v /\ x = y.
Proof.
  intros Fx Fy. revert v. induction u as [|c u IH]; intros [|d v]; cbn.
  - intros [= ->]. now split.
  - intros [= _ ->]. now apply space_inside in Fx.
  - intros [= _ <-]. now apply space_inside in Fy.
  - intros [= <- E]. destruct (IH v E) as [-> ->]. now split.
Qed.

(** X12. The text [toString] gives determines the name, the health and the
    attack power: two objects with the same text agree on all three, for
    any names at all, because the two numerals contain no space. *)
Theorem toString_determines_fields (c1 c2 : GameCharacter) :
  toString c1 = toString c2 ->
  getName c1 = getName c2 /\
  getHealth c1 = getHealth c2 /\
  getAttackPower c1 = getAttackPower c2.
Proof.
  rewrite !toString_eq. unfold getName, getHealth, getAttackPower.
  change (forall E :
    name c1 ++ String SPACE (to_string (health c1)
                             ++ String SPACE (to_string (attackPower c1)))
    = name c2 ++ String SPACE (to_string (health c2)
                               ++ String SPACE (to_string (attackPower c2))),
    name c1 = name c2 /\ health c1 = health c2
    /\ attackPower c1 = attackPower c2).
  intros E.
  assert (R : forall n0 x y,
             n0 ++ String SPACE (x ++ String SPACE y)
             = (n0 ++ String SPACE x) ++ String SPACE y)
    by (intros; now rewrite append_assoc).
  rewrite !R in E.
  apply split_at_last_space in E; try apply to_string_space_free.
  destruct E as [E Ea].
  apply split_at_last_space in E; try apply to_string_space_free.
  destruct E as [En Eh].
  apply to_string_inj in Ea. apply to_string_inj in Eh. now split.
Qed.

Lemma toString_determines_fields_witness :
  getName {| name := "A 1"; health := 2; attackPower := 3; id := 0 |}
  = getName {| name := "A 1"; health := 2; attackPower := 3; id := 9 |}.
Proof.
  apply (toString_determines_fields
           {| name := "A 1"; health := 2; attackPower := 3; id := 0 |}
           {| name := "A 1"; health := 2; attackPower := 3; id := 9 |}).
  vm_compute. reflexivity.
Defined.

(** *** Constructors at the edges *)

(** X13. The default constructor never throws, on any platform and in any
    state of the counters: its three values pass the validators. While the
    counters can be incremented it returns the object with the text
    ["Name -1 0"] and the identity the counter had. *)
Theorem default_construction_never_throws {PF : Platform}
    (mem : GameCharacter) (st : Statics) :
  (forall e st', createDefault mem st <> Throws e st') /\
  (room 1 st ->
   exists c,
     createDefault mem st =
       Returns c {| uniqueId := uniqueId st + 1;
                    ObjectCount := ObjectCount st + 1 |} /\
     toString c = "Name -1 0" /\
     getPersonalId c = getIdCount st /\
     WellFormed c).
Proof.
  split.
  - intros e st'.
    change (createWith mem "Name" (-1) 0 st <> Throws e st').
    rewrite createWith_outcome, default_name_ok.
    cbn -[INT_MIN INT_MAX Z.leb Z.add].
    destruct ((INT_MIN <=? uniqueId st + 1) && (uniqueId st + 1 <=? INT_MAX));
      [| discriminate].
    destruct ((INT_MIN <=? ObjectCount st + 1)
              && (ObjectCount st + 1 <=? INT_MAX)); discriminate.
  - intros R. eexists. split; [exact (createDefault_ok mem st R) |].
    split; [reflexivity |]. split; [reflexivity |].
    refine (conj _ (conj _ _)).
    + apply validateName_ok_iff. exact default_name_ok.
    + now left.
    + unfold PowerRule, MAX_POWER. cbn. lia.
Qed.

Lemma default_construction_never_throws_witness :
  exists c,
    createDefault (PF := unsigned_char) used_storage
      {| uniqueId := 1; ObjectCount := 1 |}
    = Returns c {| uniqueId := 2; ObjectCount := 2 |} /\
    toString c = "Name -1 0".
Proof.
  destruct (proj2 (default_construction_never_throws (PF := unsigned_char)
                     used_storage {| uniqueId := 1; ObjectCount := 1 |}))
    as (c & E & T & _).
  - unfold room, INT_MIN, INT_MAX. simpl. lia.
  - exists c. split; [exact E | exact T].
Defined.

(** X14. With a valid triple and counters that hold [int] values, a
    construction never throws, and the one way it can go wrong is the
    overflow of a counter: its behaviour is undefined exactly when the
    counter of created objects or the live counter is at [INT_MAX]. *)
Theorem valid_construction_fails_only_on_overflow {PF : Platform}
    (mem : GameCharacter) (n : string) (h a : Z) (st : Statics) :
  ValidTriple n h a ->
  INT_MIN <= uniqueId st <= INT_MAX ->
  INT_MIN <= ObjectCount st <= INT_MAX ->
  (forall e st', createWith mem n h a st <> Throws e st') /\
  (createWith mem n h a st = Undefined
   <-> uniqueId st = INT_MAX \/ ObjectCount st = INT_MAX).
Proof.
  intros (Gn & Gh & Ga) RU RO.
  apply validateName_ok_iff in Gn. apply validateHealth_ok_iff in Gh.
  apply validateAttackPower_ok_iff in Ga.
  rewrite createWith_outcome, Gn, Gh, Ga. cbn -[INT_MIN INT_MAX Z.leb Z.add].
  unfold INT_MIN, INT_MAX in *.
  destruct (Z.leb_spec (-2147483648) (uniqueId st + 1)),
           (Z.leb_spec (uniqueId st + 1) 2147483647),
           (Z.leb_spec (-2147483648) (ObjectCount st + 1)),
           (Z.leb_spec (ObjectCount st + 1) 2147483647);
    cbn [andb]; (split; [intros e st'; discriminate |]);
    (split; [intros E; try discriminate E; lia
            | intros E; try reflexivity; lia]).
Qed.

Lemma valid_construction_fails_only_on_overflow_witness :
  createWith (PF := signed_char) used_storage "Jack" 10 30
    {| uniqueId := INT_MAX; ObjectCount := 0 |} = Undefined.
Proof.
  destruct (valid_construction_fails_only_on_overflow (PF := signed_char)
              used_storage "Jack" 10 30
              {| uniqueId := INT_MAX; ObjectCount := 0 |}) as [_ [_ U]].
  - split; [| split].
    + apply (validateName_ok_iff (PF := signed_char)). vm_compute. reflexivity.
    + unfold HealthRule, MAX_HEALTH. lia.
    + unfold PowerRule, MAX_POWER. lia.
  - unfold INT_MIN, INT_MAX. simpl. lia.
  - unfold INT_MIN, INT_MAX. simpl. lia.
  - apply U. left. reflexivity.
Defined.

(** *** The program *)

(** X15. The [try] block of [main] runs to its end on either kind of
    [char] and whatever the storage of its three objects held: nothing is
    thrown, each of its 23 assertions holds, and it leaves the live
    counter at 0 and the counter of created objects at 3. *)
Theorem main_runs_to_its_end {PF : Platform} (m0 m1 m2 : GameCharacter) :
  main_try m0 m1 m2 initial_statics
  = Returns (repeat true 23) {| uniqueId := 3; ObjectCount := 0 |}.
Proof. destruct PF as [[|]]; vm_compute; reflexivity. Qed.
